(** * editingScript.py: clip windows, the frame table and output indexing

    A shallow embedding of the pure and stateful core of [editingScript.py]
    (time parsing, label normalisation, the character/move frame table, the
    clip-window computation and the output index scan), with the properties
    stated about them.

    Conventions of the embedding.
    - A Python [str] is a [string]; a character is a code point below 256,
      and the character classes ([isspace], [isdigit], [isalnum], [lower])
      are Python's on that range.
    - A Python [int] is a [Z]; a Python [float] is an IEEE binary64 value,
      a [spec_float] at precision 53 and maximal exponent 1024, with the
      operations of [SpecFloat] (round to nearest, ties to even).
    - A Python [dict] keeps insertion order, and iteration order decides what
      [match_character_name] returns: a dict is an association list.
    - Exceptions are values of [exn]; a computation that may raise returns a
      [result].
    - Files and directories are finite maps from paths; console input is the
      list of lines still to be read, console output the list of lines
      written.
    - The JSON library is a pair of functions the store is given; the menus
      and the video library are outside the embedding. *)

From Stdlib Require Import ZArith QArith Lia List Ascii String Bool Relations.
From Stdlib Require Import Floats.SpecFloat.
From stdpp Require Import gmap strings pretty.

Open Scope Z_scope.

(** ** Exceptions and results *)

Inductive exn : Type :=
| ValueError (msg : string)
| OverflowError (msg : string)
| ZeroDivisionError (msg : string)
| KeyError (key : string)
| EOFError.

Inductive result (A : Type) : Type :=
| Ok (a : A)
| Raise (e : exn).
Arguments Ok {A} a.
Arguments Raise {A} e.

#[global] Instance result_ret : MRet result := fun A a => Ok a.

#[global] Instance result_bind : MBind result := fun A B k r =>
  match r with
  | Ok a => k a
  | Raise e => Raise e
  end.

(** ** Characters and strings *)

Module Str.

Definition code (c : ascii) : N := N_of_ascii c.

Definition in_range (lo hi : N) (c : ascii) : bool :=
  ((lo <=? code c) && (code c <=? hi))%N.

(** [str.isspace] on one character: TAB..CR, FS..US and space, NEL, NBSP. *)
Definition isspace (c : ascii) : bool :=
  in_range 9 13 c || in_range 28 32 c || (code c =? 133)%N || (code c =? 160)%N.

(** [str.isdecimal]: the digits [int] and [float] read, and [\d]. *)
Definition isdecimal (c : ascii) : bool := in_range 48 57 c.

(** [str.isdigit]: the decimal digits and the superscripts 2, 3 and 1. *)
Definition isdigit (c : ascii) : bool :=
  isdecimal c || in_range 178 179 c || (code c =? 185)%N.

(** [str.isalnum]. *)
Definition isalnum (c : ascii) : bool :=
  isdigit c || in_range 65 90 c || in_range 97 122 c
  || (code c =? 170)%N || (code c =? 181)%N || (code c =? 186)%N
  || in_range 188 190 c
  || in_range 192 214 c || in_range 216 246 c || in_range 248 255 c.

(** [str.lower] on one character. *)
Definition lower (c : ascii) : ascii :=
  if in_range 65 90 c || in_range 192 214 c || in_range 216 222 c
  then ascii_of_N (code c + 32)
  else c.

Fixpoint all (p : ascii -> bool) (s : string) : bool :=
  match s with
  | EmptyString => true
  | String c rest => p c && all p rest
  end.

Fixpoint filter (p : ascii -> bool) (s : string) : string :=
  match s with
  | EmptyString => EmptyString
  | String c rest => if p c then String c (filter p rest) else filter p rest
  end.

Fixpoint map (f : ascii -> ascii) (s : string) : string :=
  match s with
  | EmptyString => EmptyString
  | String c rest => String (f c) (map f rest)
  end.

Fixpoint count (c : ascii) (s : string) : nat :=
  match s with
  | EmptyString => O
  | String d rest => if Ascii.eqb d c then S (count c rest) else count c rest
  end.

Definition is_empty (s : string) : bool :=
  match s with EmptyString => true | _ => false end.

(** [s.isdigit()]: at least one character, and all of them digits. *)
Definition str_isdigit (s : string) : bool :=
  negb (is_empty s) && all isdigit s.

(** [s.split(sep)] for a one-character separator. *)
Fixpoint split (sep : ascii) (s : string) : list string :=
  match s with
  | EmptyString => [EmptyString]
  | String c rest =>
      if Ascii.eqb c sep then EmptyString :: split sep rest
      else match split sep rest with
           | p :: ps => String c p :: ps
           | [] => [String c EmptyString]
           end
  end.

(** [s.replace(old, "", 1)] for a one-character [old]. *)
Fixpoint remove_first (old : ascii) (s : string) : string :=
  match s with
  | EmptyString => EmptyString
  | String c rest =>
      if Ascii.eqb c old then rest else String c (remove_first old rest)
  end.

Fixpoint lstrip (s : string) : string :=
  match s with
  | EmptyString => EmptyString
  | String c rest => if isspace c then lstrip rest else s
  end.

Fixpoint rstrip (s : string) : string :=
  match s with
  | EmptyString => EmptyString
  | String c rest =>
      let rest' := rstrip rest in
      if isspace c && is_empty rest' then EmptyString else String c rest'
  end.

(** [s.strip()] *)
Definition strip (s : string) : string := rstrip (lstrip s).

(** The value of a string of decimal digits, most significant first. *)
Definition digit_value (c : ascii) : Z := Z.of_N (code c) - 48.

Fixpoint digits_value_from (acc : Z) (s : string) : Z :=
  match s with
  | EmptyString => acc
  | String c rest => digits_value_from (acc * 10 + digit_value c) rest
  end.

Definition digits_value (s : string) : Z := digits_value_from 0 s.

(** [c * n] for a one-character string [c]. *)
Fixpoint replicate (n : nat) (c : ascii) : string :=
  match n with
  | O => EmptyString
  | S n' => String c (replicate n' c)
  end.

End Str.

(** [int(s)] on a string that passed [isdigit]: the superscript digits are
    digits for [isdigit] and not for [int]. (The interpreter's optional cap
    on the length of a converted string is not part of the model.) *)
Definition py_int (s : string) : result Z :=
  if negb (Str.is_empty s) && Str.all Str.isdecimal s
  then Ok (Str.digits_value s)
  else Raise (ValueError "invalid literal for int() with base 10").

(** ** Labels *)

(** [sanitize_label]: keep the alphanumeric characters, [Unknown] if none. *)
Definition sanitize_label (label : string) : string :=
  let cleaned := Str.filter Str.isalnum label in
  if Str.is_empty cleaned then "Unknown" else cleaned.

(** [normalize_key]: drop whitespace, lowercase what is left. *)
Definition normalize_key (value : string) : string :=
  Str.map Str.lower (Str.filter (fun ch => negb (Str.isspace ch)) value).

(** ** Floats *)

Module PyFloat.

Definition prec : Z := 53.
Definition emax : Z := 1024.

Definition float : Type := spec_float.

Definition zero : float := S754_zero false.
Definition nan : float := S754_nan.
Definition infinity : float := S754_infinity false.

Definition add (x y : float) : float := SFadd prec emax x y.
Definition sub (x y : float) : float := SFsub prec emax x y.

(** Python's comparison operators on floats. *)
Definition lt (x y : float) : bool := SFltb x y.
Definition le (x y : float) : bool := SFleb x y.
Definition gt (x y : float) : bool := SFltb y x.
Definition ge (x y : float) : bool := SFleb y x.

Definition is_zero (x : float) : bool :=
  match x with S754_zero _ => true | _ => false end.

Definition is_nan (x : float) : bool :=
  match x with S754_nan => true | _ => false end.

Definition is_finite (x : float) : bool :=
  match x with S754_zero _ | S754_finite _ _ _ => true | _ => false end.

(** [x / y]: division by a zero raises. *)
Definition truediv (x y : float) : result float :=
  if is_zero y then Raise (ZeroDivisionError "float division by zero")
  else Ok (SFdiv prec emax x y).

(** The conversion of an [int] operand of a float operation: the nearest
    double, and [OverflowError] when that is beyond the largest one. *)
Definition of_int (n : Z) : result float :=
  match binary_normalize prec emax n 0 false with
  | S754_infinity _ => Raise (OverflowError "int too large to convert to float")
  | f => Ok f
  end.

(** [n / y] for an int [n]: the operand is converted first. *)
Definition int_truediv (n : Z) (y : float) : result float :=
  x ← of_int n; truediv x y.

(** [n + y] for an int [n]. *)
Definition int_add (n : Z) (y : float) : result float :=
  x ← of_int n; Ok (add x y).

(** The double nearest to [n / 10^k], for [0 <= n]: what [float] returns for
    the decimal numeral with digits [n] and [k] of them after the point.
    A numeral beyond the largest double gives infinity, without an error. *)
Definition of_decimal (n : Z) (k : nat) : float :=
  match n with
  | Zpos m => SFdiv prec emax (S754_finite false m 0)
                (S754_finite false (Z.to_pos (10 ^ Z.of_nat k)) 0)
  | _ => zero
  end.

(** The digits before and after the first point of a numeral. *)
Fixpoint split_point (s : string) : string * string :=
  match s with
  | EmptyString => (EmptyString, EmptyString)
  | String c rest =>
      if Ascii.eqb c "." then (EmptyString, rest)
      else let '(i, f) := split_point rest in (String c i, f)
  end.

(** [float(s)] on a string that passed [s.replace(".", "", 1).isdigit()]:
    such a string is digits around at most one point, and [float] reads it
    when the digits are decimal ones. *)
Definition of_str (s : string) : result float :=
  let '(i, f) := split_point s in
  if negb (Str.is_empty (i +:+ f)) && Str.all Str.isdecimal (i +:+ f)
  then Ok (of_decimal (Str.digits_value (i +:+ f)) (String.length f))
  else Raise (ValueError "could not convert string to float").

(** [int(x)]: truncation towards zero. *)
Definition to_int (x : float) : result Z :=
  match x with
  | S754_zero _ => Ok 0
  | S754_finite s m e =>
      let magnitude :=
        match e with
        | Zneg p => Z.shiftr (Zpos m) (Zpos p)
        | _ => Z.shiftl (Zpos m) e
        end in
      Ok (if s then - magnitude else magnitude)
  | S754_infinity _ => Raise (OverflowError "cannot convert float infinity to integer")
  | S754_nan => Raise (ValueError "cannot convert float NaN to integer")
  end.

(** [max(a, b)] and [min(a, b)]: the first argument is kept unless the
    second is strictly greater (smaller). *)
Definition max (a b : float) : float := if gt b a then b else a.
Definition min (a b : float) : float := if lt b a then b else a.

(** The rational a finite float stands for (0 for the others). *)
Definition to_Q (x : float) : Q :=
  match x with
  | S754_finite s m e =>
      let v := match e with
               | Zneg p => Qmake (Zpos m) (2 ^ p)%positive
               | _ => inject_Z (Zpos m * 2 ^ e)
               end in
      if s then Qopp v else v
  | _ => 0%Q
  end.

End PyFloat.

Abbreviation float := PyFloat.float.

(** ** Time strings *)

(** [parse_time_to_seconds]: [ss] or [mm:ss], as float seconds. *)
Definition parse_time_to_seconds (time_str : string) : result float :=
  if Str.is_empty time_str then Raise (ValueError "Time string cannot be empty.")
  else
    match Str.split ":" time_str with
    | [part] =>
        if negb (Str.str_isdigit (Str.remove_first "." part))
        then Raise (ValueError "Invalid time format. Use seconds or mm:ss.")
        else PyFloat.of_str part
    | [minutes; seconds] =>
        if negb (Str.str_isdigit minutes)
           || negb (Str.str_isdigit (Str.remove_first "." seconds))
        then Raise (ValueError "Invalid mm:ss format.")
        else
          m ← py_int minutes;
          s ← PyFloat.of_str seconds;
          PyFloat.int_add (m * 60) s
    | _ => Raise (ValueError "Invalid time format. Use seconds or mm:ss.")
    end.

(** [parse_time]: whole seconds, for the manual trim. *)
Definition parse_time (time_str : string) : result Z :=
  seconds ← parse_time_to_seconds time_str;
  PyFloat.to_int seconds.

(** ** Dictionaries *)

Definition pydict (V : Type) : Type := list (string * V).

Module Dict.
Section Ops.
Context {V : Type}.

Definition keys (d : pydict V) : list string := fst <$> d.

(** [d.get(k)] *)
Fixpoint get (k : string) (d : pydict V) : option V :=
  match d with
  | [] => None
  | (k', v) :: rest => if String.eqb k' k then Some v else get k rest
  end.

(** [d[k] = v]: an existing key keeps its place, a new one goes last. *)
Fixpoint set (k : string) (v : V) (d : pydict V) : pydict V :=
  match d with
  | [] => [(k, v)]
  | (k', v') :: rest =>
      if String.eqb k' k then (k', v) :: rest else (k', v') :: set k v rest
  end.

(** [d.setdefault(k, v)], for its effect on [d]. *)
Definition setdefault (k : string) (v : V) (d : pydict V) : pydict V :=
  match get k d with
  | Some _ => d
  | None => set k v d
  end.

(** The first key, in iteration order, whose normalised form is
    [target]: the loop of the two name matchers. *)
Fixpoint first_normalized (target : string) (d : pydict V) : option string :=
  match d with
  | [] => None
  | (key, _) :: rest =>
      if String.eqb (normalize_key key) target then Some key
      else first_normalized target rest
  end.
End Ops.
End Dict.

(** The frame table: character -> move -> frame count. *)
Definition move_table : Type := pydict Z.
Definition frame_table : Type := pydict move_table.

(** [match_character_name] *)
Definition match_character_name (name : string) (frame_data : frame_table) : string :=
  let target := normalize_key name in
  match Dict.first_normalized target frame_data with
  | Some key => key
  | None => name
  end.

(** [match_move_name] *)
Definition match_move_name (character move : string) (frame_data : frame_table) : string :=
  let moves := default [] (Dict.get character frame_data) in
  let target := normalize_key move in
  match Dict.first_normalized target moves with
  | Some key => key
  | None => move
  end.

(** ** The store and the console *)

Unset Elimination Schemes.
Inductive json : Type :=
| JNull
| JBool (b : bool)
| JInt (n : Z)
| JFloat (x : float)
| JString (s : string)
| JArray (items : list json)
| JObject (members : pydict json).
Set Elimination Schemes.

Definition json_of_moves (moves : move_table) : json :=
  JObject (List.map (fun '(k, n) => (k, JInt n)) moves).

Definition json_of_table (data : frame_table) : json :=
  JObject (List.map (fun '(k, moves) => (k, json_of_moves moves)) data).

(** What the program can see and change outside its own values: the files
    by path, and the lines written to the console. *)
Record world : Type := World {
  files : gmap string string;
  stdout : list string
}.

Definition print (line : string) (w : world) : world :=
  World (files w) (stdout w ++ [line]).

Definition write_file (path content : string) (w : world) : world :=
  World (<[path := content]> (files w)) (stdout w).

Definition FRAME_DATA_PATH : string := "frame_data.json".


Section Store.

(** The JSON library: [json_loads] is [json.load] on a file's text, with
    [None] for the [ValueError] it raises on text it cannot read;
    [json_dumps sort_keys] is [json.dump] with [indent=2]. *)
Variable json_loads : string -> option json.
Variable json_dumps : bool -> json -> string.

(** [save_frame_data] *)
Definition save_frame_data (data : json) (path : string) (w : world) : world :=
  write_file path (json_dumps true data) w.


(** The [while True] loop of [ensure_move_frames]; [inputs] are the lines
    the operator will type, and the lines left over are returned. *)
Fixpoint ensure_loop (char_key move_key path : string) (inputs : list string)
    (frame_data : frame_table) (w : world) {struct inputs}
  : result Z * frame_table * list string * world :=
  match Dict.get char_key frame_data with
  | None => (Raise (KeyError char_key), frame_data, inputs, w)
  | Some moves =>
      match Dict.get move_key moves with
      | Some frames => (Ok frames, frame_data, inputs, w)
      | None =>
          let w := print ("Frame count for '" +:+ char_key +:+ "' move '" +:+ move_key
                          +:+ "' (integer frames at 60fps): ") w in
          match inputs with
          | [] => (Raise EOFError, frame_data, inputs, w)
          | line :: inputs' =>
              let user_input := Str.strip line in
              if Str.is_empty user_input then
                ensure_loop char_key move_key path inputs' frame_data
                  (print "Frame count is required to continue." w)
              else if negb (Str.str_isdigit user_input) then
                ensure_loop char_key move_key path inputs' frame_data
                  (print "Please enter a positive integer." w)
              else
                match py_int user_input with
                | Raise e => (Raise e, frame_data, inputs', w)
                | Ok n =>
                    let frame_data' :=
                      Dict.set char_key (Dict.set move_key n moves) frame_data in
                    let w := save_frame_data (json_of_table frame_data') path w in
                    let w := print ("Saved " +:+ char_key +:+ " -> " +:+ move_key +:+ ": "
                                    +:+ pretty n +:+ " frames.") w in
                    ensure_loop char_key move_key path inputs' frame_data' w
                end
          end
      end
  end.

(** [ensure_move_frames]: the frame count of the move, asked for when the
    table has none. The table is changed in place: the table after the
    call is returned with the result. *)
Definition ensure_move_frames (character move : string) (frame_data : frame_table)
    (path : string) (inputs : list string) (w : world)
  : result Z * frame_table * list string * world :=
  let char_key := match_character_name character frame_data in
  let frame_data := Dict.setdefault char_key [] frame_data in
  let move_key := match_move_name char_key move frame_data in
  ensure_loop char_key move_key path inputs frame_data w.

End Store.

(** The parts of what [ensure_move_frames] and [get_clip_range] return. *)
Definition returned {A : Type} (out : result A * frame_table * list string * world)
  : result A := out.1.1.1.
Definition table_after {A : Type} (out : result A * frame_table * list string * world)
  : frame_table := out.1.1.2.
Definition world_after {A : Type} (out : result A * frame_table * list string * world)
  : world := out.2.

(** ** The clip window *)

Definition FRAME_PAD_FRAMES : Z := 13.
(** The literals [0.10], [60.0] and [2.0]. *)
Definition DEFAULT_EXTRA_PRE : float := PyFloat.of_decimal 10 2.
Definition DEFAULT_EXTRA_POST : float := PyFloat.of_decimal 10 2.
Definition DEFAULT_FPS : float := PyFloat.of_decimal 600 1.
Definition two : float := PyFloat.of_decimal 20 1.

Definition EMPTY_WINDOW : string :=
  "Computed clip window is empty. Adjust timestamp or padding.".

(** The body of [get_clip_range] once the frame count is known, in two
    steps: the clamped bounds, then the check that the window is not empty. *)
Definition clamped_bounds (frames : Z)
    (center_ts video_duration fps extra_pre extra_post : float)
  : result (float * float) :=
  duration ← PyFloat.int_truediv frames fps;
  pad_sec ← PyFloat.int_truediv FRAME_PAD_FRAMES fps;
  half ← PyFloat.truediv duration two;
  let total_pre := PyFloat.add (PyFloat.add half pad_sec) extra_pre in
  half' ← PyFloat.truediv duration two;
  let total_post := PyFloat.add (PyFloat.add half' pad_sec) extra_post in
  let start_time := PyFloat.max PyFloat.zero (PyFloat.sub center_ts total_pre) in
  let end_time := PyFloat.min video_duration (PyFloat.add center_ts total_post) in
  Ok (start_time, end_time).

Definition computeWindow (frames : Z)
    (center_ts video_duration fps extra_pre extra_post : float)
  : result (float * float) :=
  '(start_time, end_time) ←
    clamped_bounds frames center_ts video_duration fps extra_pre extra_post;
  if PyFloat.ge start_time end_time then Raise (ValueError EMPTY_WINDOW)
  else Ok (start_time, end_time).

Section Clip.
Variable json_dumps : bool -> json -> string.

(** [get_clip_range]; an argument left out of the call is [None] and takes
    the default of the signature. *)
Definition get_clip_range (character move : string) (center_ts video_duration : float)
    (frame_data : frame_table) (frame_data_path : option string)
    (fps extra_pre extra_post : option float) (inputs : list string) (w : world)
  : result (float * float) * frame_table * list string * world :=
  let frame_data_path := default FRAME_DATA_PATH frame_data_path in
  let fps := default DEFAULT_FPS fps in
  let extra_pre := default DEFAULT_EXTRA_PRE extra_pre in
  let extra_post := default DEFAULT_EXTRA_POST extra_post in
  let '(r, frame_data, inputs, w) :=
    ensure_move_frames json_dumps character move frame_data frame_data_path inputs w in
  (frames ← r;
   computeWindow frames center_ts video_duration fps extra_pre extra_post,
   frame_data, inputs, w).
End Clip.

(** ** The output index *)

(** The fragment of regular expressions the file-name pattern is written
    in, matched the way [re] matches: left to right, a repetition taking as
    much as it can and giving back when the rest fails. *)
Module Re.

Inductive atom : Type :=
| Lit (c : ascii)      (* a literal character *)
| Digit.               (* \d *)

Inductive item : Type :=
| One (a : atom)
| Group1Plus (a : atom)   (* (a+), the first group *)
| End.                    (* $ *)

Definition pattern : Type := list item.

(** One character against an atom, under [re.IGNORECASE]. *)
Definition atom_matches (a : atom) (c : ascii) : bool :=
  match a with
  | Lit l => Ascii.eqb (Str.lower l) (Str.lower c)
  | Digit => Str.isdecimal c
  end.

Definition newline : ascii := ascii_of_N 10.

(** [$]: the end of the string, or just before a newline that ends it. *)
Definition at_end (s : string) : bool :=
  match s with
  | EmptyString => true
  | String c EmptyString => Ascii.eqb c newline
  | _ => false
  end.

(** A greedy [a+] that sets the first group: after one character for [a],
    first as many more as there are, then, where the rest of the pattern
    (the continuation [k], given what is left and the text taken) fails,
    one fewer. *)
Fixpoint repeat1 (a : atom) (k : string -> string -> option string)
    (s : string) (taken : string) : option string :=
  match s with
  | String c s' =>
      if atom_matches a c then
        let taken := taken +:+ String c EmptyString in
        match repeat1 a k s' taken with
        | Some r => Some r
        | None => k s' taken
        end
      else None
  | EmptyString => None
  end.

(** [match_here p s g]: [p] matches at the start of [s]; the result is the
    text of the first group ([g] when the pattern has none left to set). *)
Fixpoint match_here (p : pattern) (s : string) (g : string) : option string :=
  match p with
  | [] => Some g
  | One a :: p' =>
      match s with
      | String c s' => if atom_matches a c then match_here p' s' g else None
      | EmptyString => None
      end
  | End :: p' => if at_end s then match_here p' s g else None
  | Group1Plus a :: p' => repeat1 a (fun s' taken => match_here p' s' taken) s EmptyString
  end.

(** [re.escape(text)], compiled: each character stands for itself. *)
Fixpoint escape (text : string) : pattern :=
  match text with
  | EmptyString => []
  | String c rest => One (Lit c) :: escape rest
  end.

(** [pattern.match(s)], giving [match.group(1)]. *)
Definition match_group1 (p : pattern) (s : string) : option string :=
  match_here p s EmptyString.

End Re.

(** [os.path.join(a, b)] on POSIX paths. *)
Definition os_path_join (a b : string) : string :=
  match b with
  | String "/" _ => b
  | _ =>
      match String.rev a with
      | EmptyString => b
      | String "/" _ => a +:+ b
      | _ => a +:+ "/" +:+ b
      end
  end.

Definition OUTPUT_DIR : string := "output".

(** [(\d+)\.mp4$] *)
Definition index_tail : Re.pattern :=
  [Re.Group1Plus Re.Digit;
   Re.One (Re.Lit "."); Re.One (Re.Lit "m"); Re.One (Re.Lit "p"); Re.One (Re.Lit "4");
   Re.End].

(** [rf"{re.escape(prefix)}(\d+)\.mp4$"], compiled with [re.IGNORECASE]. *)
Definition index_pattern (prefix : string) : Re.pattern :=
  Re.escape prefix ++ index_tail.

Definition index_prefix (character move : string) : string :=
  sanitize_label character +:+ "_" +:+ sanitize_label move +:+ "_".

(** The loop of [next_output_index] over the directory's entries. *)
Fixpoint scan_entries (p : Re.pattern) (entries : list string) (max_idx : Z) : result Z :=
  match entries with
  | [] => Ok max_idx
  | filename :: rest =>
      match Re.match_group1 p filename with
      | Some digits =>
          n ← py_int digits;
          scan_entries p rest (Z.max max_idx n)
      | None => scan_entries p rest max_idx
      end
  end.

(** [next_output_index]; [dirs] gives the entries of each directory that
    exists, in the order [os.listdir] returns them. *)
Definition next_output_index (character move : string) (out_dir : string)
    (dirs : gmap string (list string)) : result Z :=
  let char_dir := os_path_join out_dir (sanitize_label character) in
  let move_dir := os_path_join char_dir (sanitize_label move) in
  match dirs !! move_dir with
  | None => Ok 1
  | Some entries =>
      let prefix := index_prefix character move in
      let pattern := index_pattern prefix in
      max_idx ← scan_entries pattern entries 0;
      Ok (max_idx + 1)
  end.

(** ** The properties, as the specification words them *)

(** *** The clip window *)

Definition EmptyWindow {A : Type} (r : result A) : Prop :=
  r = Raise (ValueError EMPTY_WINDOW).

(** A window inside the video: [0 <= start < end <= video_duration]. *)
Definition inside_video (video_duration : float) (window : float * float) : Prop :=
  PyFloat.le PyFloat.zero (fst window) = true
  /\ PyFloat.lt (fst window) (snd window) = true
  /\ PyFloat.le (snd window) video_duration = true.

(** "Either a window inside the video, or [EmptyWindow]." *)
Definition window_or_empty (frames : Z)
    (center_ts video_duration fps extra_pre extra_post : float) : Prop :=
  let r := computeWindow frames center_ts video_duration fps extra_pre extra_post in
  (exists window, r = Ok window /\ inside_video video_duration window) \/ EmptyWindow r.

(** The algorithm of the specification, with the padding a parameter. *)
Definition computeWindow_spec (frameCount : Z) (fps : float) (paddingFrames : Z)
    (extraPre extraPost centerTimestamp videoDuration : float)
  : result (float * float) :=
  moveDuration ← PyFloat.int_truediv frameCount fps;
  padSeconds ← PyFloat.int_truediv paddingFrames fps;
  halfDuration ← PyFloat.truediv moveDuration two;
  let totalPre := PyFloat.add (PyFloat.add halfDuration padSeconds) extraPre in
  let totalPost := PyFloat.add (PyFloat.add halfDuration padSeconds) extraPost in
  let start := PyFloat.max PyFloat.zero (PyFloat.sub centerTimestamp totalPre) in
  let end_ := PyFloat.min videoDuration (PyFloat.add centerTimestamp totalPost) in
  if PyFloat.ge start end_ then Raise (ValueError EMPTY_WINDOW) else Ok (start, end_).

(** *** Time strings *)


(** A non-empty string of decimal digits. *)
Definition is_digits (s : string) : bool :=
  negb (Str.is_empty s) && Str.all Str.isdecimal s.




(** *** File names *)

(** [name] is [prefix], decimal digits of value [n], then [.mp4], up to the
    case of its letters: the pattern of the specification. *)
Definition names_index (prefix name : string) (n : Z) : Prop :=
  exists digits,
    is_digits digits = true /\ n = Str.digits_value digits
    /\ Str.map Str.lower name = Str.map Str.lower (prefix +:+ digits +:+ ".mp4").

(** What the compiled pattern accepts: the same, or the same followed by
    one newline. *)
Definition names_index_nl (prefix name : string) (n : Z) : Prop :=
  names_index prefix name n
  \/ exists name', name = name' +:+ String Re.newline EmptyString
                   /\ names_index prefix name' n.


(** *** Names and the frame table *)



(** No two keys of a mapping normalise to the same comparison key. *)
Definition distinct_keys {V : Type} (d : pydict V) : Prop :=
  NoDup (normalize_key <$> Dict.keys d).

(** The invariant of the frame table, at both levels. *)
Definition table_ok (frame_data : frame_table) : Prop :=
  distinct_keys frame_data
  /\ Forall (fun entry => distinct_keys (snd entry)) frame_data.

(** Every count of the table is positive. *)
Definition counts_positive (frame_data : frame_table) : Prop :=
  Forall (fun entry => Forall (fun mv => 0 < snd mv) (snd entry)) frame_data.

(** No count of the table is negative. *)
Definition counts_nonnegative (frame_data : frame_table) : Prop :=
  Forall (fun entry => Forall (fun mv => 0 <= snd mv) (snd entry)) frame_data.

(** What both matchers compute: the first stored key with the normal form
    of the name, or the name. *)
Definition resolve {V : Type} (name : string) (d : pydict V) : string :=
  match Dict.first_normalized (normalize_key name) d with
  | Some key => key
  | None => name
  end.

(** A key that may be stored without breaking [distinct_keys]: one that is
    there already, or one whose normal form is new. *)
Definition storable {V : Type} (k : string) (d : pydict V) : Prop :=
  k ∈ Dict.keys d \/ normalize_key k ∉ normalize_key <$> Dict.keys d.

(** *** The store *)


(** *** Auxiliary notions of the proofs *)

(** Zero, a positive number or positive infinity. *)
Definition nonnegative (x : float) : Prop :=
  match x with
  | S754_zero false | S754_infinity false | S754_finite false _ _ => True
  | _ => False
  end.


(** The patterns whose group is a run of digits. *)
Definition digit_group (it : Re.item) : Prop :=
  match it with
  | Re.Group1Plus a => a = Re.Digit
  | _ => True
  end.

(** The pattern after the digits: [\.mp4$]. *)
Definition extension_tail : Re.pattern := tail index_tail.

(** The last character of a string. *)
Fixpoint last_char (s : string) : option ascii :=
  match s with
  | EmptyString => None
  | String c EmptyString => Some c
  | String _ rest => last_char rest
  end.

(** *** Sample data *)

Definition sample_table : frame_table :=
  [("Ryu", [("Hadouken", 40); ("Low Kick", 22)]); ("Chun Li", [("Lightning Legs", 35)])].

Definition sample_dirs : gmap string (list string) :=
  {[ "output/Ryu/Hadouken" := ["Ryu_Hadouken_001.mp4"; "Ryu_Hadouken_003.mp4"] ]}.

(** The literals [5.0] and [100.0] of the examples. *)
Definition five : float := PyFloat.of_decimal 50 1.
Definition hundred : float := PyFloat.of_decimal 1000 1.

(** ** The rest of the program *)

(** *** Numbers in file names *)

(** The character of a decimal digit. *)
Definition digit_char (d : Z) : ascii := ascii_of_N (48 + Z.to_N d).

(** The decimal digits of [n], for [0 <= n], put before [acc]. *)
Fixpoint decimal_go (fuel : nat) (n : Z) (acc : string) : string :=
  match fuel with
  | O => acc
  | S fuel' =>
      let acc' := String (digit_char (n mod 10)) acc in
      if n <? 10 then acc' else decimal_go fuel' (n / 10) acc'
  end.

(** [str(n)] for [0 <= n]. *)
Definition decimal (n : Z) : string :=
  decimal_go (S (Z.to_nat (Z.log2 n))) n EmptyString.

(** Zeros before [s] up to [width] characters. *)
Definition zero_pad (width : nat) (s : string) : string :=
  Str.replicate (width - String.length s) "0" +:+ s.

(** [f"{n:03d}"]: the sign counts in the width. *)
Definition format_03d (n : Z) : string :=
  if n <? 0 then "-" +:+ zero_pad 2 (decimal (- n)) else zero_pad 3 (decimal n).

(** The file name [save_move_clip] writes to:
    [f"{sanitize_label(character)}_{sanitize_label(move)}_{index:03d}.mp4"]. *)
Definition clip_filename (character move : string) (index : Z) : string :=
  sanitize_label character +:+ "_" +:+ sanitize_label move +:+ "_"
  +:+ format_03d index +:+ ".mp4".

(** *** Vocabulary of the further properties *)

(** A line [ensure_move_frames] asks again after: blank, or not digits. *)
Definition rejected_line (line : string) : bool :=
  Str.is_empty (Str.strip line) || negb (Str.str_isdigit (Str.strip line)).

(** The count stored for a character and a move, under these very keys. *)
Definition count_of (character move : string) (frame_data : frame_table) : option Z :=
  moves ← Dict.get character frame_data; Dict.get move moves.

(** The lines of the console left unread after a call. *)
Definition inputs_after {A : Type} (out : result A * frame_table * list string * world)
  : list string := out.1.2.

(** What [ensure_move_frames] writes to the console: the prompt of [input],
    the answer to a line it does not take, and the confirmation. *)
Definition frame_prompt (char_key move_key : string) : string :=
  "Frame count for '" +:+ char_key +:+ "' move '" +:+ move_key
  +:+ "' (integer frames at 60fps): ".

Definition retry_message (line : string) : string :=
  if Str.is_empty (Str.strip line) then "Frame count is required to continue."
  else "Please enter a positive integer.".

Definition saved_line (char_key move_key : string) (n : Z) : string :=
  "Saved " +:+ char_key +:+ " -> " +:+ move_key +:+ ": " +:+ pretty n +:+ " frames.".


(** ** Writing clips *)

(** A time as the program passes it on: an [int] or a [float]. *)
Inductive number : Type :=
| Int (n : Z)
| Float (x : float).

(** The output tree: the entries of each directory that exists, in the
    order [os.listdir] gives them, and the clips the video library was asked
    to write, in the order of the calls, each with its path and the interval
    of the source video it holds. *)
Record disk : Type := Disk {
  listing : gmap string (list string);
  written : list (string * number * number)
}.

(** What ends a call early: an exception of the program's own operations,
    or the [OSError] of the operating system and the video library. *)
Inductive error : Type :=
| PyExn (e : exn)
| OSError (msg : string).

(** The part of a path up to its last slash, the slash included, and the
    part after it; nothing when the path has no slash. *)
Fixpoint split_last_slash (p : string) : option (string * string) :=
  match p with
  | EmptyString => None
  | String c rest =>
      match split_last_slash rest with
      | Some (head, tail) => Some (String c head, tail)
      | None => if Ascii.eqb c "/" then Some (String c EmptyString, rest) else None
      end
  end.

(** [head.rstrip('/')] *)
Fixpoint rstrip_slash (s : string) : string :=
  match s with
  | EmptyString => EmptyString
  | String c rest =>
      let rest' := rstrip_slash rest in
      if Ascii.eqb c "/" && Str.is_empty rest' then EmptyString else String c rest'
  end.

(** [os.path.split(p)] on POSIX paths: the directory and the last
    component. *)
Definition path_split (p : string) : string * string :=
  match split_last_slash p with
  | None => (EmptyString, p)
  | Some (head, tail) =>
      (if Str.all (fun c => Ascii.eqb c "/") head then head else rstrip_slash head, tail)
  end.

(** [os.makedirs(dir, exist_ok=True)], for the directory itself: one that
    exists is left as it is, one that does not is there, empty, afterwards.
    (The directories above it are made as well; the program lists none of
    them.) *)
Definition makedirs (dir : string) (d : disk) : disk :=
  match listing d !! dir with
  | Some _ => d
  | None => Disk (<[dir := []]> (listing d)) (written d)
  end.

(** [clip.subclip(start_time, end_time).write_videofile(path, ...)]: the
    library is asked for the interval, and the file is in its directory
    afterwards, once however often it is written; with no such directory the
    encoder fails. *)
Definition write_videofile (path : string) (start_time end_time : number) (d : disk)
  : option error * disk :=
  let '(dir, name) := path_split path in
  match listing d !! dir with
  | None => (Some (OSError path), d)
  | Some entries =>
      let entries' := if bool_decide (name ∈ entries) then entries else entries ++ [name] in
      (None, Disk (<[dir := entries']> (listing d))
               (written d ++ [(path, start_time, end_time)]))
  end.

(** [save_move_clip]: what the call raises, if anything, and the disk and
    the console after it. *)
Definition save_move_clip (character move : string) (start_time end_time : float)
    (d : disk) (w : world) : option error * disk * world :=
  let char_dir := os_path_join OUTPUT_DIR (sanitize_label character) in
  let move_dir := os_path_join char_dir (sanitize_label move) in
  let d := makedirs move_dir d in
  match next_output_index character move OUTPUT_DIR (listing d) with
  | Raise e => (Some (PyExn e), d, w)
  | Ok index =>
      let filename := clip_filename character move index in
      let output_path := os_path_join move_dir filename in
      let w := print ("Writing: " +:+ output_path) w in
      let '(r, d) := write_videofile output_path (Float start_time) (Float end_time) d in
      (r, d, w)
  end.

(** *** The table after a journey through the file *)

(** The same table with its keys in another order, at both levels: what
    [sort_keys=True] makes of a table that is saved and loaded again. *)
Definition reordered (frame_data frame_data' : frame_table) : Prop :=
  exists mid : frame_table,
    Forall2 (fun e e' => e.1 = e'.1 /\ e.2 ≡ₚ e'.2) frame_data mid
    /\ mid ≡ₚ frame_data'.

Definition sample_table_sorted : frame_table :=
  [("Chun Li", [("Lightning Legs", 35)]); ("Ryu", [("Hadouken", 40); ("Low Kick", 22)])].

(** ** The manual trim *)







(** [input(prompt)]: the prompt goes to the console, and the next line is
    read; at the end of the input it raises [EOFError]. *)
Definition input (prompt : string) (inputs : list string) (w : world)
  : result string * list string * world :=
  match inputs with
  | [] => (Raise EOFError, [], print prompt w)
  | line :: rest => (Ok line, rest, print prompt w)
  end.



Definition flow_world (out : option error * list string * disk * world) : world := out.2.



(** ** The move extractor *)

(** [f"{x:.2f}"]: the decimal numeral with two digits after the point that
    is nearest to the exact value, the even one of two that are as near. *)
Definition hundredths (m : positive) (e : Z) : Z :=
  match e with
  | Zneg p =>
      let num := Zpos m * 100 in
      let den := 2 ^ Zpos p in
      let q := num / den in
      let r := num mod den in
      if 2 * r <? den then q
      else if den <? 2 * r then q + 1
      else if Z.even q then q else q + 1
  | _ => Zpos m * 2 ^ e * 100
  end.

Definition format_2f (x : float) : string :=
  match x with
  | S754_nan => "nan"
  | S754_infinity negative => if negative then "-inf" else "inf"
  | S754_zero negative => if negative then "-0.00" else "0.00"
  | S754_finite negative m e =>
      let h := hundredths m e in
      (if negative then "-" else EmptyString)
      +:+ decimal (h / 100) +:+ "." +:+ zero_pad 2 (decimal (h mod 100))
  end.

(** [sorted(names)]: by code points. *)
Fixpoint insert_sorted (name : string) (names : list string) : list string :=
  match names with
  | [] => [name]
  | first :: rest =>
      if String.leb name first then name :: names else first :: insert_sorted name rest
  end.

Definition sorted (names : list string) : list string :=
  fold_right insert_sorted [] names.

(** [sep.join(parts)] *)
Fixpoint join_with (sep : string) (parts : list string) : string :=
  match parts with
  | [] => EmptyString
  | [p] => p
  | p :: ps => p +:+ sep +:+ join_with sep ps
  end.

(** [announce_move_options] *)
Definition announce_move_options (character : string) (frame_data : frame_table)
    (w : world) : world :=
  let moves := default [] (Dict.get character frame_data) in
  match moves with
  | _ :: _ =>
      let move_list := join_with ", " (sorted (Dict.keys moves)) in
      print ("Enter move names for " +:+ character +:+ " (known moves: " +:+ move_list
             +:+ "). "
             +:+ "Type 'done' when finished or 'changechar' to pick a new character.") w
  | [] =>
      print ("No stored moves yet for " +:+ character +:+ ". "
             +:+ "Type the move name to add one, 'done' to exit, "
             +:+ "or 'changechar' to pick a new character.") w
  end.

(** What the move extractor works on: the frame table, the lines not read
    yet, the disk and the console. *)
Record session : Type := Session {
  table : frame_table;
  pending : list string;
  output : disk;
  screen : world
}.

(** The loop that asks for the character until a line is not blank. *)
Fixpoint ask_character (inputs : list string) (w : world)
  : result string * list string * world :=
  match inputs with
  | [] => (Raise EOFError, [], print "Character: " w)
  | line :: rest =>
      let w := print "Character: " w in
      let character := Str.strip line in
      if Str.is_empty character
      then ask_character rest (print "Character name is required." w)
      else (Ok character, rest, w)
  end.

Definition TIMESTAMP_PROMPT : string :=
  "Timestamp of move (seconds or mm:ss). " +:+ "Press ENTER to choose a new move: ".

Section Session.
Variable json_dumps : bool -> json -> string.

(** The inner loop of [move_extractor_flow], over the timestamps of one
    move. It ends with what it raised, if anything, and the character as
    the loop last resolved it; [None] when [fuel] iterations were not
    enough. *)
Fixpoint timestamp_loop (fuel : nat) (duration : float) (character move : string)
    (s : session) : option (option error * string * session) :=
  match fuel with
  | O => None
  | S fuel =>
      match input TIMESTAMP_PROMPT (pending s) (screen s) with
      | (Raise e, inputs, w) =>
          Some (Some (PyExn e), character, Session (table s) inputs (output s) w)
      | (Ok line, inputs, w) =>
          let ts_input := Str.strip line in
          if Str.is_empty ts_input then
            Some (None, character, Session (table s) inputs (output s) w)
          else
            match parse_time_to_seconds ts_input with
            | Raise (ValueError msg) =>
                timestamp_loop fuel duration character move
                  (Session (table s) inputs (output s) (print ("Error: " +:+ msg) w))
            | Raise e =>
                Some (Some (PyExn e), character, Session (table s) inputs (output s) w)
            | Ok center =>
                if PyFloat.ge center duration then
                  timestamp_loop fuel duration character move
                    (Session (table s) inputs (output s)
                       (print "Timestamp is beyond video duration. Try again." w))
                else
                  let character := match_character_name character (table s) in
                  let move := match_move_name character move (table s) in
                  let '(r, frame_data, inputs, w) :=
                    get_clip_range json_dumps character move center duration (table s)
                      (Some FRAME_DATA_PATH) None None None inputs w in
                  match r with
                  | Raise (ValueError msg) =>
                      timestamp_loop fuel duration character move
                        (Session frame_data inputs (output s) (print ("Error: " +:+ msg) w))
                  | Raise e =>
                      Some (Some (PyExn e), character,
                            Session frame_data inputs (output s) w)
                  | Ok (start_time, end_time) =>
                      let '(r, d, w) :=
                        save_move_clip character move start_time end_time (output s) w in
                      match r with
                      | Some e => Some (Some e, character, Session frame_data inputs d w)
                      | None =>
                          timestamp_loop fuel duration character move
                            (Session frame_data inputs d w)
                      end
                  end
            end
      end
  end.

(** The outer loop, over the moves. *)
Fixpoint move_loop (fuel : nat) (duration : float) (character : string) (s : session)
  : option (option error * session) :=
  match fuel with
  | O => None
  | S fuel =>
      match input ("Move for " +:+ character +:+ ": ") (pending s) (screen s) with
      | (Raise e, inputs, w) =>
          Some (Some (PyExn e), Session (table s) inputs (output s) w)
      | (Ok line, inputs, w) =>
          let move := Str.strip line in
          if Str.is_empty move then
            move_loop fuel duration character (Session (table s) inputs (output s) w)
          else
            let move_lower := Str.map Str.lower move in
            if String.eqb move_lower "done" then
              Some (None, Session (table s) inputs (output s)
                            (print "Exiting move extractor." w))
            else if String.eqb move_lower "changechar" then
              match ask_character inputs w with
              | (Raise e, inputs, w) =>
                  Some (Some (PyExn e), Session (table s) inputs (output s) w)
              | (Ok character, inputs, w) =>
                  let character := match_character_name character (table s) in
                  let w := announce_move_options character (table s) w in
                  move_loop fuel duration character
                    (Session (table s) inputs (output s) w)
              end
            else
              let move := match_move_name character move (table s) in
              let w := print ("Logging timestamps for " +:+ character +:+ " - " +:+ move
                              +:+ ". "
                              +:+ "Press ENTER with no input to choose another move.") w in
              match timestamp_loop fuel duration character move
                      (Session (table s) inputs (output s) w) with
              | None => None
              | Some (Some e, _, s) => Some (Some e, s)
              | Some (None, character, s) => move_loop fuel duration character s
              end
      end
  end.

(** The body of [move_extractor_flow] once the video is open and the table
    loaded: every turn of a loop reads a line, so one iteration more than
    there are lines is fuel enough. *)
Definition move_extractor_session (duration : float) (frame_data : frame_table)
    (inputs : list string) (d : disk) (w : world) : option (option error * session) :=
  let w := print ("Loaded video (" +:+ format_2f duration +:+ "s).") w in
  match ask_character inputs w with
  | (Raise e, inputs, w) => Some (Some (PyExn e), Session frame_data inputs d w)
  | (Ok character, inputs, w) =>
      let character := match_character_name character frame_data in
      let w := announce_move_options character frame_data w in
      move_loop (S (length inputs)) duration character (Session frame_data inputs d w)
  end.

End Session.

(** *** What a session of the move extractor may do *)

(** One clip more on the disk: [save_move_clip] called with a window
    that is inside the video when the duration is a number. *)
Inductive clip_step (duration : float) : disk -> disk -> Prop :=
| clip_saved (character move : string) (start_time end_time : float) (d : disk) (w : world) :
    (PyFloat.is_nan duration = false -> inside_video duration (start_time, end_time)) ->
    clip_step duration d
      (save_move_clip character move start_time end_time d w).1.2.

(** One call of [ensure_move_frames] on the table. *)
Definition table_step (json_dumps : bool -> json -> string) (t t' : frame_table) : Prop :=
  exists character move path inputs w,
    t' = table_after (ensure_move_frames json_dumps character move t path inputs w).

(** From one state of a session to a later one: clips are saved, frame
    counts are asked for, lines are read. *)
Definition session_trace (json_dumps : bool -> json -> string) (duration : float)
    (s s' : session) : Prop :=
  rtc (clip_step duration) (output s) (output s')
  /\ rtc (table_step json_dumps) (table s) (table s')
  /\ pending s' `suffix_of` pending s.

(** How the move extractor ends: without an exception, at the end of the
    input, or on a number beyond the range of the floats. *)
Definition session_end (r : option error) (s : session) : Prop :=
  r = None
  \/ (r = Some (PyExn EOFError) /\ pending s = [])
  \/ exists msg, r = Some (PyExn (OverflowError msg)).

(** A clip that holds a window inside the video. *)
Definition clip_inside (duration : float) (clip : string * number * number) : Prop :=
  match clip with
  | (_, Float start_time, Float end_time) => inside_video duration (start_time, end_time)
  | _ => False
  end.

(** A path that is an entry of a directory of the disk. *)
Definition on_disk (d : disk) (path : string) : Prop :=
  exists dir name entries,
    path = dir +:+ "/" +:+ name /\ Str.count "/" name = 0%nat
    /\ listing d !! dir = Some entries /\ name ∈ entries.

(** The disk [d'] is [d] with the clips [new] more, each inside the video,
    each under a path of its own that was not on the disk. *)
Definition clips_added (duration : float) (d d' : disk)
    (new : list (string * number * number)) : Prop :=
  written d' = written d ++ new
  /\ Forall (clip_inside duration) new
  /\ NoDup (new.*1.*1)
  /\ (forall path, path ∈ new.*1.*1 -> on_disk d' path /\ ~ on_disk d path)
  /\ (forall path, on_disk d path -> on_disk d' path).

(** * Proofs *)

#[local] Arguments String.append !s1 s2 : simpl nomatch.

(** ** Characters *)

Ltac each_char c := destruct c as [[] [] [] [] [] [] [] []]; vm_compute; try reflexivity; try discriminate.

Lemma lower_idempotent (c : ascii) : Str.lower (Str.lower c) = Str.lower c.
Proof. each_char c. Qed.


Lemma isdecimal_lower (c : ascii) : Str.lower c = c \/ Str.isdecimal c = false.
Proof. each_char c; auto. Qed.

(** ** Strings *)

Lemma app_empty_r (s : string) : s +:+ "" = s.
Proof. induction s; simpl; congruence. Qed.

Lemma app_assoc (a b c : string) : (a +:+ b) +:+ c = a +:+ (b +:+ c).
Proof. induction a; simpl; congruence. Qed.

Lemma map_app (f : ascii -> ascii) (a b : string) :
  Str.map f (a +:+ b) = Str.map f a +:+ Str.map f b.
Proof. induction a; simpl; congruence. Qed.

Lemma filter_app (p : ascii -> bool) (a b : string) :
  Str.filter p (a +:+ b) = Str.filter p a +:+ Str.filter p b.
Proof.
  induction a as [|c a IH]; simpl; [reflexivity|].
  destruct (p c); simpl; congruence.
Qed.

Lemma all_app (p : ascii -> bool) (a b : string) :
  Str.all p (a +:+ b) = Str.all p a && Str.all p b.
Proof.
  induction a as [|c a IH]; simpl; [reflexivity|].
  rewrite IH. apply andb_assoc.
Qed.

(** ** Decimal digits *)

Lemma digit_value_bounds (c : ascii) :
  Str.isdecimal c = true -> 0 <= Str.digit_value c <= 9.
Proof.
  destruct c as [[] [] [] [] [] [] [] []]; intros H; vm_compute in H;
    try discriminate H; vm_compute; split; discriminate.
Qed.

Lemma digits_value_from_nonneg (s : string) :
  forall acc, 0 <= acc -> Str.all Str.isdecimal s = true -> 0 <= Str.digits_value_from acc s.
Proof.
  induction s as [|c s IH]; simpl; intros acc Hacc; [now intros _|].
  intros [Hc Hs]%andb_true_iff. apply IH; [|exact Hs].
  pose proof (digit_value_bounds c Hc). lia.
Qed.

Lemma py_int_Ok (s : string) (n : Z) :
  py_int s = Ok n -> is_digits s = true /\ n = Str.digits_value s /\ 0 <= n.
Proof.
  unfold py_int, is_digits.
  destruct (negb (Str.is_empty s) && Str.all Str.isdecimal s) eqn:E; [|discriminate].
  intros [= <-]. split; [reflexivity|]. split; [reflexivity|].
  apply andb_true_iff in E as [_ E]. now apply digits_value_from_nonneg.
Qed.

(** ** [normalize_key] *)







(** ** Dictionaries *)

Section DictFacts.
Context {V : Type}.
Implicit Types (d : pydict V) (k key target : string) (v : V).

Lemma eqb_eq k k' : String.eqb k k' = true <-> k = k'.
Proof. apply String.eqb_eq. Qed.

Lemma get_Some_keys k d v : Dict.get k d = Some v -> k ∈ Dict.keys d.
Proof.
  induction d as [|[k' v'] d IH]; simpl; [discriminate|].
  destruct (String.eqb k' k) eqn:E.
  - apply eqb_eq in E as ->. intros _. apply list_elem_of_here.
  - intros H. apply list_elem_of_further, IH, H.
Qed.

Lemma get_None_keys k d : Dict.get k d = None <-> k ∉ Dict.keys d.
Proof.
  induction d as [|[k' v'] d IH]; simpl.
  - split; [intros _; apply not_elem_of_nil | reflexivity].
  - rewrite not_elem_of_cons. destruct (String.eqb k' k) eqn:E.
    + apply eqb_eq in E as ->. split; [discriminate | intros [Hne _]; now destruct Hne].
    + apply String.eqb_neq in E. rewrite IH. simpl.
      split; [intros H; split; [intros Heq; now apply E | exact H] | tauto].
Qed.

Lemma keys_set_present k v d :
  k ∈ Dict.keys d -> Dict.keys (Dict.set k v d) = Dict.keys d.
Proof.
  induction d as [|[k' v'] d IH]; simpl.
  - intros H. now apply not_elem_of_nil in H.
  - intros H. destruct (String.eqb k' k) eqn:E; [reflexivity|].
    apply String.eqb_neq in E. apply elem_of_cons in H as [H | H]; [congruence|].
    simpl. f_equal. apply IH, H.
Qed.

Lemma keys_set_absent k v d :
  k ∉ Dict.keys d -> Dict.keys (Dict.set k v d) = Dict.keys d ++ [k].
Proof.
  induction d as [|[k' v'] d IH]; simpl; [reflexivity|].
  rewrite not_elem_of_cons. intros [Hne H].
  destruct (String.eqb k' k) eqn:E.
  - apply eqb_eq in E. congruence.
  - simpl. f_equal. apply IH, H.
Qed.

Lemma get_set_same k v d : Dict.get k (Dict.set k v d) = Some v.
Proof.
  induction d as [|[k' v'] d IH]; simpl.
  - now rewrite String.eqb_refl.
  - destruct (String.eqb k' k) eqn:E; simpl; now rewrite E.
Qed.

Lemma elem_of_set k v d key' v' :
  (key', v') ∈ Dict.set k v d -> (key', v') ∈ d \/ (key' = k /\ v' = v).
Proof.
  induction d as [|[k0 v0] d IH]; simpl.
  - intros H%list_elem_of_singleton. injection H as -> ->. now right.
  - destruct (String.eqb k0 k) eqn:E.
    + apply eqb_eq in E as ->.
      intros [H | H]%elem_of_cons.
      * injection H as -> ->. now right.
      * left. now apply list_elem_of_further.
    + intros [H | H]%elem_of_cons.
      * left. rewrite H. apply list_elem_of_here.
      * destruct (IH H) as [H' | H']; [left | now right].
        now apply list_elem_of_further.
Qed.

Lemma distinct_keys_set k v d :
  distinct_keys d -> storable k d -> distinct_keys (Dict.set k v d).
Proof.
  unfold distinct_keys. intros Hd Hk.
  destruct (decide (k ∈ Dict.keys d)) as [Hin | Hout].
  - now rewrite keys_set_present.
  - destruct Hk as [Hk | Hk]; [contradiction|].
    rewrite keys_set_absent by assumption.
    rewrite fmap_app. apply NoDup_app. split; [assumption|].
    split; [|apply NoDup_singleton].
    intros x Hx ->%list_elem_of_singleton. contradiction.
Qed.

Lemma storable_after_set k v d : storable k (Dict.set k v d).
Proof. left. eapply get_Some_keys, get_set_same. Qed.

Lemma first_normalized_Some target d key :
  Dict.first_normalized target d = Some key ->
  key ∈ Dict.keys d /\ normalize_key key = target.
Proof.
  induction d as [|[k' v'] d IH]; simpl; [discriminate|].
  destruct (String.eqb (normalize_key k') target) eqn:E.
  - intros [= ->]. apply eqb_eq in E. split; [apply list_elem_of_here | exact E].
  - intros H. destruct (IH H) as [Hin Hn]. split; [now apply list_elem_of_further | exact Hn].
Qed.

Lemma first_normalized_None target d :
  Dict.first_normalized target d = None <->
  target ∉ normalize_key <$> Dict.keys d.
Proof.
  induction d as [|[k' v'] d IH]; simpl.
  - split; [intros _; apply not_elem_of_nil | reflexivity].
  - rewrite not_elem_of_cons.
    destruct (String.eqb (normalize_key k') target) eqn:E.
    + apply eqb_eq in E. split; [discriminate | intros [Hne _]; now destruct Hne].
    + apply String.eqb_neq in E. rewrite IH. simpl.
      split; [intros H; split; [intros Heq; now apply E | exact H] | tauto].
Qed.

Lemma first_normalized_distinct target d key :
  distinct_keys d -> key ∈ Dict.keys d -> normalize_key key = target ->
  Dict.first_normalized target d = Some key.
Proof.
  unfold distinct_keys.
  induction d as [|[k' v'] d IH]; simpl.
  - intros _ H. now apply not_elem_of_nil in H.
  - intros [Hfresh Hd]%NoDup_cons [-> | Hin]%elem_of_cons Hn.
    + apply eqb_eq in Hn. now rewrite Hn.
    + destruct (String.eqb (normalize_key k') target) eqn:E; [|now apply IH].
      apply eqb_eq in E. exfalso. apply Hfresh. rewrite E, <- Hn.
      now apply list_elem_of_fmap_2.
Qed.

Lemma resolve_stored name d :
  normalize_key name ∈ normalize_key <$> Dict.keys d ->
  resolve name d ∈ Dict.keys d /\ normalize_key (resolve name d) = normalize_key name.
Proof.
  unfold resolve. intros H.
  destruct (Dict.first_normalized _ d) as [key|] eqn:E.
  - now apply first_normalized_Some.
  - now apply first_normalized_None in E.
Qed.

Lemma resolve_that_key name d key :
  distinct_keys d -> key ∈ Dict.keys d -> normalize_key key = normalize_key name ->
  resolve name d = key.
Proof.
  unfold resolve. intros Hd Hin Hn.
  now rewrite (first_normalized_distinct _ _ key Hd Hin Hn).
Qed.

Lemma resolve_literal name d :
  normalize_key name ∉ normalize_key <$> Dict.keys d -> resolve name d = name.
Proof.
  unfold resolve. intros H. apply first_normalized_None in H. now rewrite H.
Qed.

Lemma resolve_storable name d : storable (resolve name d) d.
Proof.
  destruct (decide (normalize_key name ∈ normalize_key <$> Dict.keys d)) as [H | H].
  - left. now apply resolve_stored.
  - right. now rewrite resolve_literal.
Qed.

End DictFacts.

(** ** The name matchers *)

Lemma match_character_name_resolve (name : string) (frame_data : frame_table) :
  match_character_name name frame_data = resolve name frame_data.
Proof. reflexivity. Qed.

Lemma match_move_name_resolve (character move : string) (frame_data : frame_table) :
  match_move_name character move frame_data
  = resolve move (default [] (Dict.get character frame_data)).
Proof. reflexivity. Qed.

(** C6. [match_character_name] and [match_move_name] return a stored key
    whose normal form is that of the name asked for, whenever there is one
    (the stored key itself when no two keys share a normal form), and the
    name as it was given when there is none. *)
Theorem match_names_resolve (character name move : string) (frame_data : frame_table) :
  let moves := default [] (Dict.get character frame_data) in
  ((forall key, key ∈ Dict.keys frame_data ->
      normalize_key key = normalize_key name ->
      match_character_name name frame_data ∈ Dict.keys frame_data
      /\ normalize_key (match_character_name name frame_data) = normalize_key name
      /\ (distinct_keys frame_data -> match_character_name name frame_data = key))
   /\ ((forall key, key ∈ Dict.keys frame_data ->
          normalize_key key <> normalize_key name) ->
       match_character_name name frame_data = name))
  /\
  ((forall key, key ∈ Dict.keys moves ->
      normalize_key key = normalize_key move ->
      match_move_name character move frame_data ∈ Dict.keys moves
      /\ normalize_key (match_move_name character move frame_data) = normalize_key move
      /\ (distinct_keys moves -> match_move_name character move frame_data = key))
   /\ ((forall key, key ∈ Dict.keys moves ->
          normalize_key key <> normalize_key move) ->
       match_move_name character move frame_data = move)).
Proof.
  intros moves.
  rewrite match_character_name_resolve, match_move_name_resolve. fold moves.
  assert (G : forall (V : Type) (d : pydict V) (q : string),
             (forall key, key ∈ Dict.keys d -> normalize_key key = normalize_key q ->
                resolve q d ∈ Dict.keys d
                /\ normalize_key (resolve q d) = normalize_key q
                /\ (distinct_keys d -> resolve q d = key))
             /\ ((forall key, key ∈ Dict.keys d -> normalize_key key <> normalize_key q) ->
                 resolve q d = q)).
  { intros V d q. split.
    - intros key Hin Hn.
      assert (Hq : normalize_key q ∈ normalize_key <$> Dict.keys d).
      { rewrite <- Hn. now apply list_elem_of_fmap_2. }
      destruct (resolve_stored q d Hq) as [H1 H2].
      repeat split; try assumption.
      intros Hd. now apply resolve_that_key.
    - intros Hnone. apply resolve_literal.
      intros (key & Hk & Hin)%list_elem_of_fmap. now apply (Hnone key). }
  split; apply G.
Qed.

Lemma match_names_resolve_witness :
  match_character_name "chunli" sample_table = "Chun Li"
  /\ match_character_name "Ken" sample_table = "Ken"
  /\ match_move_name "Ryu" "LOWKICK" sample_table = "Low Kick"
  /\ match_move_name "Ryu" "Shoryuken" sample_table = "Shoryuken".
Proof.
  pose proof (match_names_resolve "Ryu" "chunli" "LOWKICK" sample_table) as [[Hc _] [Hm _]].
  pose proof (match_names_resolve "Ryu" "Ken" "Shoryuken" sample_table) as [[_ Hc'] [_ Hm']].
  split; [|split; [|split]].
  - apply (Hc "Chun Li"); [compute_done | reflexivity | compute_done].
  - apply Hc'. apply Forall_forall. compute_done.
  - apply (Hm "Low Kick"); [compute_done | reflexivity | compute_done].
  - apply Hm'. apply Forall_forall. compute_done.
Defined.

(** ** [ensure_move_frames] *)

Lemma get_Some_elem {V : Type} (k : string) (d : pydict V) (v : V) :
  Dict.get k d = Some v -> (k, v) ∈ d.
Proof.
  induction d as [|[k' v'] d IH]; simpl; [discriminate|].
  destruct (String.eqb k' k) eqn:E.
  - apply String.eqb_eq in E as ->. intros [= ->]. apply list_elem_of_here.
  - intros H. apply list_elem_of_further, IH, H.
Qed.

Lemma setdefault_present {V : Type} (k : string) (v : V) (d : pydict V) :
  k ∈ Dict.keys d -> Dict.setdefault k v d = d.
Proof.
  intros H. unfold Dict.setdefault. destruct (Dict.get k d) eqn:E; [reflexivity|].
  now apply get_None_keys in E.
Qed.

Lemma setdefault_absent {V : Type} (k : string) (v : V) (d : pydict V) :
  k ∉ Dict.keys d -> Dict.setdefault k v d = Dict.set k v d.
Proof.
  intros H. unfold Dict.setdefault. apply get_None_keys in H. now rewrite H.
Qed.

Lemma table_ok_set_moves (char_key move_key : string) (n : Z)
    (moves : move_table) (frame_data : frame_table) :
  table_ok frame_data ->
  Dict.get char_key frame_data = Some moves ->
  storable move_key moves ->
  table_ok (Dict.set char_key (Dict.set move_key n moves) frame_data).
Proof.
  intros [Hd Hall] Hget Hst. split.
  - apply distinct_keys_set; [exact Hd|]. left. eapply get_Some_keys, Hget.
  - rewrite Forall_forall in Hall |- *. intros [k v] Hin.
    apply elem_of_set in Hin as [Hin | [-> ->]]; [now apply Hall|].
    simpl. apply distinct_keys_set; [|exact Hst].
    apply (Hall (char_key, moves)). now apply get_Some_elem.
Qed.

Section EnsureFacts.
Variable json_dumps : bool -> json -> string.

Lemma ensure_loop_table_ok (char_key move_key path : string) (inputs : list string) :
  forall (frame_data : frame_table) (w : world),
    table_ok frame_data ->
    (forall moves, Dict.get char_key frame_data = Some moves -> storable move_key moves) ->
    table_ok (table_after (ensure_loop json_dumps char_key move_key path inputs frame_data w)).
Proof.
  induction inputs as [|line inputs IH]; intros frame_data w Hok Hst; simpl;
    destruct (Dict.get char_key frame_data) as [moves|] eqn:Hc; try exact Hok;
    destruct (Dict.get move_key moves) as [frames|] eqn:Hm; try exact Hok.
  assert (Hsame : forall w', table_ok (table_after
            (ensure_loop json_dumps char_key move_key path inputs frame_data w'))).
  { intros w'. apply IH; [exact Hok|]. now rewrite Hc. }
  destruct (Str.is_empty (Str.strip line)); [apply Hsame|].
  destruct (negb (Str.str_isdigit (Str.strip line))); [apply Hsame|].
  destruct (py_int (Str.strip line)) as [n|e]; [|exact Hok].
  apply IH.
  - apply table_ok_set_moves; auto.
  - intros moves'. rewrite get_set_same. intros [= <-]. apply storable_after_set.
Qed.

Lemma ensure_loop_keys (char_key move_key path : string) (inputs : list string) :
  forall (frame_data : frame_table) (w : world),
    Dict.keys (table_after (ensure_loop json_dumps char_key move_key path inputs frame_data w))
    = Dict.keys frame_data.
Proof.
  induction inputs as [|line inputs IH]; intros frame_data w; simpl;
    destruct (Dict.get char_key frame_data) as [moves|] eqn:Hc; try reflexivity;
    destruct (Dict.get move_key moves) as [frames|] eqn:Hm; try reflexivity.
  destruct (Str.is_empty (Str.strip line)); [apply IH|].
  destruct (negb (Str.str_isdigit (Str.strip line))); [apply IH|].
  destruct (py_int (Str.strip line)) as [n|e]; [|reflexivity].
  rewrite IH. apply keys_set_present. eapply get_Some_keys, Hc.
Qed.

Lemma ensure_loop_known (char_key move_key path : string) (inputs : list string)
    (frame_data : frame_table) (w : world) (moves : move_table) (frames : Z) :
  Dict.get char_key frame_data = Some moves ->
  Dict.get move_key moves = Some frames ->
  ensure_loop json_dumps char_key move_key path inputs frame_data w
  = (Ok frames, frame_data, inputs, w).
Proof. intros Hc Hm. destruct inputs; simpl; now rewrite Hc, Hm. Qed.

Lemma table_ok_setdefault (k : string) (frame_data : frame_table) :
  table_ok frame_data -> storable k frame_data ->
  table_ok (Dict.setdefault k [] frame_data).
Proof.
  intros [Hd Hall] Hst.
  destruct (decide (k ∈ Dict.keys frame_data)) as [Hin | Hout].
  { rewrite setdefault_present by assumption. now split. }
  rewrite setdefault_absent by assumption.
  split; [now apply distinct_keys_set|].
  rewrite Forall_forall in Hall |- *. intros [k' v'] Hin.
  apply elem_of_set in Hin as [Hin | [-> ->]]; [now apply Hall|].
  apply NoDup_nil_2.
Qed.

(** C9. A frame table in which no two keys of one level share a normal
    form is still such a table after [ensure_move_frames], whatever the
    operator types and however the call ends; a character whose normal
    form is stored adds no key, and a move whose normal form is stored
    under the character leaves the table as it was. *)
Theorem ensure_move_frames_keeps_distinct_keys
    (character move path : string) (frame_data : frame_table)
    (inputs : list string) (w : world) :
  table_ok frame_data ->
  let frame_data' :=
    table_after (ensure_move_frames json_dumps character move frame_data path inputs w) in
  table_ok frame_data'
  /\ (normalize_key character ∈ normalize_key <$> Dict.keys frame_data ->
      Dict.keys frame_data' = Dict.keys frame_data)
  /\ (forall moves,
        Dict.get (match_character_name character frame_data) frame_data = Some moves ->
        normalize_key move ∈ normalize_key <$> Dict.keys moves ->
        frame_data' = frame_data).
Proof.
  intros Hok. unfold ensure_move_frames.
  rewrite !match_character_name_resolve.
  set (char_key := resolve character frame_data).
  set (fd1 := Dict.setdefault char_key [] frame_data).
  rewrite match_move_name_resolve.
  set (move_key := resolve move (default [] (Dict.get char_key fd1))).
  cbv zeta. split; [|split].
  - apply ensure_loop_table_ok.
    + apply table_ok_setdefault; [exact Hok | apply resolve_storable].
    + intros moves Hget. subst move_key. rewrite Hget. apply resolve_storable.
  - intros Hin. rewrite ensure_loop_keys. subst fd1.
    rewrite setdefault_present; [reflexivity|]. now apply resolve_stored.
  - intros moves Hget Hin.
    assert (Hfd : fd1 = frame_data).
    { subst fd1. apply setdefault_present. eapply get_Some_keys, Hget. }
    subst move_key. rewrite Hfd, Hget. simpl.
    destruct (resolve_stored move moves Hin) as [Hkey _].
    destruct (Dict.get (resolve move moves) moves) as [frames|] eqn:Hm.
    + now rewrite (ensure_loop_known _ _ _ _ _ _ moves frames).
    + apply get_None_keys in Hm. contradiction.
Qed.

(** What [ensure_move_frames] does keep out: a count below zero is never
    stored, and never returned from a table that has none. *)
Lemma ensure_loop_counts_nonnegative (char_key move_key path : string)
    (inputs : list string) :
  forall (frame_data : frame_table) (w : world),
    counts_nonnegative frame_data ->
    let out := ensure_loop json_dumps char_key move_key path inputs frame_data w in
    counts_nonnegative (table_after out)
    /\ forall n, returned out = Ok n -> 0 <= n.
Proof.
  unfold counts_nonnegative.
  induction inputs as [|line inputs IH]; intros frame_data w Hok; simpl;
    destruct (Dict.get char_key frame_data) as [moves|] eqn:Hc;
    try (split; [exact Hok | discriminate]);
    destruct (Dict.get move_key moves) as [frames|] eqn:Hm;
    try (split; [exact Hok | discriminate]).
  1,2: split; [exact Hok|]; intros n [= <-];
       apply get_Some_elem in Hc, Hm; rewrite Forall_forall in Hok;
       specialize (Hok _ Hc); simpl in Hok; rewrite Forall_forall in Hok;
       exact (Hok _ Hm).
  destruct (Str.is_empty (Str.strip line)); [now apply IH|].
  destruct (negb (Str.str_isdigit (Str.strip line))); [now apply IH|].
  destruct (py_int (Str.strip line)) as [n|e] eqn:En; [|split; [exact Hok | discriminate]].
  apply IH. apply py_int_Ok in En as (_ & _ & Hn).
  rewrite Forall_forall in Hok |- *. intros [k v] Hin.
  apply elem_of_set in Hin as [Hin | [-> ->]]; [now apply Hok|]. simpl.
  apply get_Some_elem in Hc. specialize (Hok _ Hc). simpl in Hok.
  rewrite Forall_forall in Hok |- *. intros [k' v'] Hin'.
  apply elem_of_set in Hin' as [Hin' | [-> ->]]; [now apply Hok | exact Hn].
Qed.

End EnsureFacts.

Lemma ensure_move_frames_keeps_distinct_keys_witness :
  table_ok sample_table
  /\ table_ok (table_after (ensure_move_frames (fun _ _ => "") "ryu" "Shoryuken" sample_table
                             FRAME_DATA_PATH ["x"; "48"] (World ∅ []))).
Proof.
  assert (H : table_ok sample_table).
  { split; [compute_done|]. repeat constructor; compute_done. }
  split; [exact H|].
  exact (proj1 (ensure_move_frames_keeps_distinct_keys (fun _ _ => "") "ryu" "Shoryuken"
                  FRAME_DATA_PATH sample_table ["x"; "48"] (World ∅ []) H)).
Defined.

(** C2, at the input on which the code departs from it: with an empty table
    and an operator who types [0], [ensure_move_frames] stores the count 0
    under the move, writes the table to the store and returns 0. *)
Theorem ensure_move_frames_accepts_zero (json_dumps : bool -> json -> string) :
  let out := ensure_move_frames json_dumps "Ryu" "Hadouken" [] FRAME_DATA_PATH ["0"]
               (World ∅ []) in
  returned out = Ok 0
  /\ table_after out = [("Ryu", [("Hadouken", 0)])]
  /\ files (world_after out) !! FRAME_DATA_PATH
     = Some (json_dumps true (json_of_table [("Ryu", [("Hadouken", 0)])]))
  /\ ~ counts_positive (table_after out).
Proof.
  intros out.
  assert (Hret : returned out = Ok 0) by (vm_compute; reflexivity).
  assert (Htab : table_after out = [("Ryu", [("Hadouken", 0)])]) by (vm_compute; reflexivity).
  split; [exact Hret|]. split; [exact Htab|]. split.
  - vm_compute. reflexivity.
  - rewrite Htab. intros H.
    apply Forall_cons in H as [H _]. apply Forall_cons in H as [H _].
    simpl in H. lia.
Qed.

(** ** Float comparisons *)

Lemma compare_antisym (a b : float) :
  SFcompare b a = option_map CompOpp (SFcompare a b).
Proof.
  assert (P : forall p q, Pos.compare_cont Eq q p = CompOpp (Pos.compare_cont Eq p q)).
  { intros p q. now rewrite Pos.compare_cont_antisym. }
  destruct a as [sa|sa| |sa ma ea], b as [sb|sb| |sb mb eb]; simpl;
    try destruct sa; try destruct sb; try reflexivity;
    rewrite (Z.compare_antisym ea eb), (P ma mb);
    destruct (ea ?= eb); simpl; try reflexivity;
    now destruct (Pos.compare_cont Eq ma mb).
Qed.

Lemma lt_le (a b : float) : PyFloat.lt a b = true -> PyFloat.le a b = true.
Proof.
  unfold PyFloat.lt, PyFloat.le, SFltb, SFleb.
  now destruct (SFcompare a b) as [[]|].
Qed.

Lemma lt_not_nan (a b : float) :
  PyFloat.lt a b = true -> PyFloat.is_nan a = false /\ PyFloat.is_nan b = false.
Proof.
  unfold PyFloat.lt, SFltb. destruct a, b; simpl; try discriminate; auto.
Qed.

Lemma le_refl (a : float) : PyFloat.is_nan a = false -> PyFloat.le a a = true.
Proof.
  unfold PyFloat.le, SFleb.
  destruct a as [s|s| |s m e]; simpl; try discriminate; try (now destruct s); intros _.
  rewrite Z.compare_refl, Pos.compare_cont_refl. now destruct s.
Qed.

Lemma not_ge_lt (a b : float) :
  PyFloat.is_nan a = false -> PyFloat.is_nan b = false ->
  PyFloat.ge a b = false -> PyFloat.lt a b = true.
Proof.
  unfold PyFloat.ge, PyFloat.lt, SFleb, SFltb. intros Ha Hb.
  rewrite (compare_antisym a b).
  destruct (SFcompare a b) as [[]|] eqn:E; simpl; try discriminate; try reflexivity.
  destruct a, b; simpl in *; discriminate.
Qed.

Create HintDb pyfloat.
#[local] Hint Resolve lt_le le_refl not_ge_lt : pyfloat.

Lemma max_zero (x : float) :
  PyFloat.is_nan (PyFloat.max PyFloat.zero x) = false
  /\ PyFloat.le PyFloat.zero (PyFloat.max PyFloat.zero x) = true.
Proof.
  unfold PyFloat.max, PyFloat.gt. destruct (SFltb PyFloat.zero x) eqn:E.
  - split; [apply (lt_not_nan _ _ E) | auto with pyfloat].
  - split; reflexivity.
Qed.

Lemma min_duration (video_duration y : float) :
  PyFloat.is_nan video_duration = false ->
  PyFloat.is_nan (PyFloat.min video_duration y) = false
  /\ PyFloat.le (PyFloat.min video_duration y) video_duration = true.
Proof.
  intros Hd. unfold PyFloat.min. destruct (PyFloat.lt y video_duration) eqn:E.
  - split; [apply (lt_not_nan _ _ E) | auto with pyfloat].
  - split; [exact Hd | auto with pyfloat].
Qed.

Lemma positive_not_zero (x : float) :
  PyFloat.gt x PyFloat.zero = true -> PyFloat.is_zero x = false.
Proof. now destruct x as [[]|[]| |[] ? ?]. Qed.

(** ** The clip window *)

Lemma clamped_bounds_defined (frames : Z)
    (center_ts video_duration fps extra_pre extra_post ff : float) :
  PyFloat.gt fps PyFloat.zero = true ->
  PyFloat.of_int frames = Ok ff ->
  exists x y,
    clamped_bounds frames center_ts video_duration fps extra_pre extra_post
    = Ok (PyFloat.max PyFloat.zero x, PyFloat.min video_duration y).
Proof.
  intros Hfps Hff. apply positive_not_zero in Hfps.
  unfold clamped_bounds, PyFloat.int_truediv, PyFloat.truediv.
  rewrite Hff, Hfps. cbn [mbind result_bind].
  change (PyFloat.of_int FRAME_PAD_FRAMES)
    with (Ok (A := float) (S754_finite false 7318349394477056 (-49))).
  cbn [mbind result_bind PyFloat.is_zero two PyFloat.of_decimal].
  change (PyFloat.is_zero two) with false. cbn [mbind result_bind].
  eauto.
Qed.

(** A frame count that does not convert to a double: the error of the
    conversion is the outcome of the call. *)
Lemma computeWindow_overflow (frames : Z)
    (center_ts video_duration fps extra_pre extra_post : float) (e : exn) :
  PyFloat.of_int frames = Raise e ->
  computeWindow frames center_ts video_duration fps extra_pre extra_post = Raise e.
Proof.
  intros H. unfold computeWindow, clamped_bounds, PyFloat.int_truediv. now rewrite H.
Qed.

(** C1, on the inputs where it holds. For a frame count that converts to a
    double, a frame rate above zero and a video duration that is a number,
    [computeWindow] either returns a window with
    [0 <= start < end <= video_duration] or fails with [EmptyWindow], and it
    fails exactly when the clamped start is at or after the clamped end. *)
Theorem computeWindow_inside_video (frames : Z)
    (center_ts video_duration fps extra_pre extra_post ff : float) :
  PyFloat.gt fps PyFloat.zero = true ->
  PyFloat.of_int frames = Ok ff ->
  PyFloat.is_nan video_duration = false ->
  window_or_empty frames center_ts video_duration fps extra_pre extra_post
  /\ exists start_time end_time,
       clamped_bounds frames center_ts video_duration fps extra_pre extra_post
       = Ok (start_time, end_time)
       /\ (EmptyWindow (computeWindow frames center_ts video_duration fps extra_pre extra_post)
           <-> PyFloat.ge start_time end_time = true)
       /\ (PyFloat.ge start_time end_time = false ->
           computeWindow frames center_ts video_duration fps extra_pre extra_post
           = Ok (start_time, end_time)).
Proof.
  intros Hfps Hff Hd.
  destruct (clamped_bounds_defined frames center_ts video_duration fps extra_pre extra_post
              ff Hfps Hff) as (x & y & Hb).
  destruct (max_zero x) as [Hs_nan Hs].
  destruct (min_duration video_duration y Hd) as [He_nan He].
  unfold window_or_empty, EmptyWindow, computeWindow. rewrite Hb. cbn [mbind result_bind].
  destruct (PyFloat.ge (PyFloat.max PyFloat.zero x) (PyFloat.min video_duration y)) eqn:Hge.
  - split; [now right|]. eexists _, _. split; [reflexivity|]. split; [tauto | congruence].
  - split.
    + left. eexists. split; [reflexivity|]. repeat split; simpl; auto with pyfloat.
    + eexists _, _. split; [reflexivity|]. split; [|reflexivity].
      split; [discriminate | congruence].
Qed.

Lemma computeWindow_inside_video_witness :
  PyFloat.gt DEFAULT_FPS PyFloat.zero = true
  /\ PyFloat.of_int 60 = Ok (S754_finite false 8444249301319680 (-47))
  /\ PyFloat.is_nan hundred = false
  /\ window_or_empty 60 five hundred DEFAULT_FPS DEFAULT_EXTRA_PRE DEFAULT_EXTRA_POST.
Proof.
  repeat split; try reflexivity.
  exact (proj1 (computeWindow_inside_video 60 five hundred DEFAULT_FPS
                  DEFAULT_EXTRA_PRE DEFAULT_EXTRA_POST
                  (S754_finite false 8444249301319680 (-47))
                  eq_refl eq_refl eq_refl)).
Defined.

(** C1, as stated, fails on two inputs. A frame count too large for a
    double, such as [10^309], makes the division raise [OverflowError], which
    is neither a window nor [EmptyWindow]; and a video duration that is not a
    number is returned as the end of the window. *)
Lemma computeWindow_not_always_inside :
  ~ window_or_empty (10 ^ 309) five hundred DEFAULT_FPS DEFAULT_EXTRA_PRE DEFAULT_EXTRA_POST
  /\ ~ window_or_empty 60 five PyFloat.nan DEFAULT_FPS DEFAULT_EXTRA_PRE DEFAULT_EXTRA_POST.
Proof.
  split.
  - assert (E : computeWindow (10 ^ 309) five hundred DEFAULT_FPS DEFAULT_EXTRA_PRE
                  DEFAULT_EXTRA_POST
                = Raise (OverflowError "int too large to convert to float"))
      by (vm_compute; reflexivity).
    unfold window_or_empty, EmptyWindow. rewrite E.
    intros [(window & H & _) | H]; discriminate.
  - assert (E : computeWindow 60 five PyFloat.nan DEFAULT_FPS DEFAULT_EXTRA_PRE
                  DEFAULT_EXTRA_POST
                = Ok (S754_finite false 4710014610291644 (-50), S754_nan))
      by (vm_compute; reflexivity).
    unfold window_or_empty, EmptyWindow. rewrite E.
    intros [(window & H & _ & Hlt & _) | H]; [|discriminate].
    injection H as <-. discriminate.
Qed.

Lemma computeWindow_is_spec (frames : Z)
    (center_ts video_duration fps extra_pre extra_post : float) :
  computeWindow frames center_ts video_duration fps extra_pre extra_post
  = computeWindow_spec frames fps FRAME_PAD_FRAMES extra_pre extra_post
      center_ts video_duration.
Proof.
  unfold computeWindow, clamped_bounds, computeWindow_spec.
  destruct (PyFloat.int_truediv frames fps) as [duration|]; [|reflexivity].
  cbn [mbind result_bind].
  destruct (PyFloat.int_truediv FRAME_PAD_FRAMES fps) as [pad_sec|]; [|reflexivity].
  cbn [mbind result_bind].
  destruct (PyFloat.truediv duration two) as [half|]; reflexivity.
Qed.

(** C3, with the padding as the code has it. The window of
    [get_clip_range] is the algorithm's window at a padding of
    [FRAME_PAD_FRAMES = 13] frames, a constant of the module and not an
    argument of the call; [fps], [extra_pre] and [extra_post] are arguments
    with the defaults [60.0], [0.10] and [0.10]; and a 60-frame move centred
    at 5.0 s in a 100 s video gets, with the defaults, a window between
    4.1833 and 4.1834 s at the start and between 5.8166 and 5.8167 s at the
    end. *)
Theorem computeWindow_follows_algorithm :
  FRAME_PAD_FRAMES = 13
  /\ PyFloat.of_str "60.0" = Ok DEFAULT_FPS
  /\ PyFloat.of_str "0.10" = Ok DEFAULT_EXTRA_PRE
  /\ PyFloat.of_str "0.10" = Ok DEFAULT_EXTRA_POST
  /\ (forall frames center_ts video_duration fps extra_pre extra_post,
        computeWindow frames center_ts video_duration fps extra_pre extra_post
        = computeWindow_spec frames fps FRAME_PAD_FRAMES extra_pre extra_post
            center_ts video_duration)
  /\ (forall json_dumps character move center_ts video_duration frame_data path
             fps extra_pre extra_post inputs w,
        returned (get_clip_range json_dumps character move center_ts video_duration
                    frame_data path fps extra_pre extra_post inputs w)
        = (frames ← returned (ensure_move_frames json_dumps character move frame_data
                                (default FRAME_DATA_PATH path) inputs w);
           computeWindow_spec frames (default DEFAULT_FPS fps) FRAME_PAD_FRAMES
             (default DEFAULT_EXTRA_PRE extra_pre) (default DEFAULT_EXTRA_POST extra_post)
             center_ts video_duration))
  /\ exists start_time end_time,
       computeWindow 60 five hundred DEFAULT_FPS DEFAULT_EXTRA_PRE DEFAULT_EXTRA_POST
       = Ok (start_time, end_time)
       /\ (41833 # 10000 < PyFloat.to_Q start_time)%Q
       /\ (PyFloat.to_Q start_time < 41834 # 10000)%Q
       /\ (58166 # 10000 < PyFloat.to_Q end_time)%Q
       /\ (PyFloat.to_Q end_time < 58167 # 10000)%Q.
Proof.
  split; [reflexivity|]. split; [reflexivity|]. split; [reflexivity|].
  split; [reflexivity|]. split; [exact computeWindow_is_spec|]. split.
  - intros. unfold get_clip_range.
    destruct (ensure_move_frames _ _ _ _ _ _ _) as [[[r fd'] inputs'] w'].
    unfold returned. cbn [fst snd].
    destruct r as [frames|e]; [|reflexivity].
    cbn [mbind result_bind]. apply computeWindow_is_spec.
  - exists (S754_finite false 4710014610291644 (-50)),
           (S754_finite false 6548984458134596 (-50)).
    split; [vm_compute; reflexivity|].
    repeat split; vm_compute; reflexivity.
Qed.

(** C3 has the padding chosen per call. The call has no argument for it: a
    caller who wants no padding gets, from the algorithm at [paddingFrames =
    0], a window other than the one the code computes. *)
Lemma padding_is_not_an_argument :
  computeWindow_spec 60 DEFAULT_FPS 0 DEFAULT_EXTRA_PRE DEFAULT_EXTRA_POST five hundred
  <> computeWindow 60 five hundred DEFAULT_FPS DEFAULT_EXTRA_PRE DEFAULT_EXTRA_POST.
Proof. vm_compute. discriminate. Qed.

(** The boundary case of the specification: a center at 0.0 clamps the
    start to 0.0, and the end is about 0.8167. *)
Example computeWindow_at_zero :
  exists end_time,
    computeWindow 60 PyFloat.zero hundred DEFAULT_FPS DEFAULT_EXTRA_PRE DEFAULT_EXTRA_POST
    = Ok (PyFloat.zero, end_time)
    /\ (8166 # 10000 < PyFloat.to_Q end_time)%Q
    /\ (PyFloat.to_Q end_time < 8167 # 10000)%Q.
Proof.
  exists (S754_finite false 7355879391371810 (-53)).
  repeat split; vm_compute; reflexivity.
Qed.

(** A move the table knows, asked for in another case: with the table
    [{"Ryu": {"Hadouken": 40}}], a center at 10.0 in a 60 s video gives the
    window (9.35, 10.65) to within a 10000th, and nothing is asked of the
    operator or written to the store. *)
Example get_clip_range_known_move (json_dumps : bool -> json -> string) :
  let table := [("Ryu", [("Hadouken", 40)])] in
  exists start_time end_time,
    get_clip_range json_dumps "ryu" "HADOUKEN" (PyFloat.of_decimal 100 1)
      (PyFloat.of_decimal 600 1) table None None None None [] (World ∅ [])
    = (Ok (start_time, end_time), table, [], World ∅ [])
    /\ (93499 # 10000 < PyFloat.to_Q start_time)%Q
    /\ (PyFloat.to_Q start_time < 93501 # 10000)%Q
    /\ (106499 # 10000 < PyFloat.to_Q end_time)%Q
    /\ (PyFloat.to_Q end_time < 106501 # 10000)%Q.
Proof.
  eexists _, _. split; [vm_compute; reflexivity|].
  repeat split; vm_compute; reflexivity.
Qed.

(** ** Signs of the floats a time string gives *)

Lemma iter_pos_invariant {A : Type} (P : A -> Prop) (f : A -> A) :
  (forall x, P x -> P (f x)) -> forall p x, P x -> P (SpecFloat.iter_pos f p x).
Proof.
  intros Hf. induction p as [p IH | p IH |]; intros x Hx; simpl; auto.
Qed.

Lemma shr_1_nonneg (mrs : shr_record) : 0 <= shr_m mrs -> 0 <= shr_m (shr_1 mrs).
Proof.
  destruct mrs as [m r s]. simpl. intros Hm.
  destruct m as [|[p|p|]|p]; simpl; lia.
Qed.

Lemma shr_nonneg (mrs : shr_record) (e n : Z) :
  0 <= shr_m mrs -> 0 <= shr_m (shr mrs e n).1.
Proof.
  intros Hm. destruct n as [|p|p]; simpl; try exact Hm.
  apply (iter_pos_invariant (fun x => 0 <= shr_m x)); [apply shr_1_nonneg | exact Hm].
Qed.

Lemma shr_fexp_nonneg (m e : Z) (l : location) :
  0 <= m -> 0 <= shr_m (shr_fexp PyFloat.prec PyFloat.emax m e l).1.
Proof.
  intros Hm. unfold shr_fexp. apply shr_nonneg.
  destruct l as [|[]]; exact Hm.
Qed.

Lemma round_nearest_even_nonneg (m : Z) (l : location) :
  0 <= m -> 0 <= round_nearest_even m l.
Proof.
  intros Hm. destruct l as [|[]]; simpl; try lia. destruct (Z.even m); lia.
Qed.

Lemma binary_round_aux_nonneg (mx ex : Z) (lx : location) :
  0 <= mx -> nonnegative (binary_round_aux PyFloat.prec PyFloat.emax false mx ex lx).
Proof.
  intros Hm. unfold binary_round_aux.
  pose proof (shr_fexp_nonneg mx ex lx Hm) as H1.
  destruct (shr_fexp PyFloat.prec PyFloat.emax mx ex lx) as [mrs' e']. simpl in H1.
  pose proof (shr_fexp_nonneg _ e' loc_Exact
                (round_nearest_even_nonneg _ (loc_of_shr_record mrs') H1)) as H2.
  destruct (shr_fexp PyFloat.prec PyFloat.emax _ e' loc_Exact) as [mrs'' e'']. simpl in H2.
  destruct (shr_m mrs'') as [|p|p]; simpl; [exact I| |lia].
  now destruct (e'' <=? PyFloat.emax - PyFloat.prec).
Qed.

Lemma binary_normalize_nonneg (m e : Z) :
  0 <= m -> nonnegative (binary_normalize PyFloat.prec PyFloat.emax m e false).
Proof.
  intros Hm. destruct m as [|p|p]; simpl; [exact I| |lia].
  unfold binary_round. destruct (shl_align _ _ _) as [mz ez].
  apply binary_round_aux_nonneg. lia.
Qed.

Lemma of_decimal_nonneg (n : Z) (k : nat) : nonnegative (PyFloat.of_decimal n k).
Proof.
  destruct n as [|m|m]; simpl; try exact I.
  unfold SFdiv_core_binary.
  set (d := Z.to_pos (10 ^ Z.of_nat k)).
  set (e' := Z.min _ _). set (m' := match 0 - 0 - e' with Z0 => _ | _ => _ end).
  assert (Hm' : 0 <= m').
  { subst m'. destruct (0 - 0 - e'); try lia. apply Z.shiftl_nonneg. lia. }
  pose proof (Z.div_pos m' (Z.pos d) Hm' (Pos2Z.is_pos d)) as Hq.
  unfold Z.div in Hq. destruct (Z.div_eucl m' (Z.pos d)) as [q r]. simpl in Hq.
  now apply binary_round_aux_nonneg.
Qed.

Lemma add_nonneg (x y : float) :
  nonnegative x -> nonnegative y -> nonnegative (PyFloat.add x y).
Proof.
  destruct x as [[]|[]| |[] mx ex], y as [[]|[]| |[] my ey]; try (simpl; tauto).
  intros _ _. unfold PyFloat.add, SFadd. apply binary_normalize_nonneg.
  unfold cond_Zopp. lia.
Qed.

Lemma of_int_nonneg (n : Z) (f : float) :
  0 <= n -> PyFloat.of_int n = Ok f -> nonnegative f.
Proof.
  intros Hn. unfold PyFloat.of_int.
  pose proof (binary_normalize_nonneg n 0 Hn) as H.
  destruct (binary_normalize _ _ n 0 false); try discriminate; now intros [= <-].
Qed.

Lemma of_str_nonneg (s : string) (f : float) :
  PyFloat.of_str s = Ok f -> nonnegative f.
Proof.
  unfold PyFloat.of_str. destruct (PyFloat.split_point s) as [i fr].
  destruct (_ && _); [|discriminate]. intros [= <-]. apply of_decimal_nonneg.
Qed.

Lemma parse_time_to_seconds_nonneg (time_str : string) (seconds : float) :
  parse_time_to_seconds time_str = Ok seconds -> nonnegative seconds.
Proof.
  unfold parse_time_to_seconds.
  destruct (Str.is_empty time_str); [discriminate|].
  destruct (Str.split ":" time_str) as [|p0 [|p1 [|p2 ps]]]; try discriminate.
  - destruct (negb _); [discriminate|]. apply of_str_nonneg.
  - destruct (_ || _); [discriminate|].
    destruct (py_int p0) as [m|] eqn:Em; [|discriminate].
    destruct (PyFloat.of_str p1) as [s|] eqn:Es; [|discriminate].
    cbn [mbind result_bind]. unfold PyFloat.int_add.
    destruct (PyFloat.of_int (m * 60)) as [fm|] eqn:Ef; [|discriminate].
    cbn [mbind result_bind]. intros [= <-].
    apply py_int_Ok in Em as (_ & _ & Hm).
    apply add_nonneg; [apply (of_int_nonneg (m * 60)); [lia | exact Ef]|].
    now apply of_str_nonneg in Es.
Qed.

(** ** [parse_time] *)

Lemma to_int_floor (x : float) :
  nonnegative x -> PyFloat.is_finite x = true ->
  exists n, PyFloat.to_int x = Ok n /\ 0 <= n
            /\ (inject_Z n <= PyFloat.to_Q x)%Q /\ (PyFloat.to_Q x < inject_Z (n + 1))%Q.
Proof.
  destruct x as [[]|[]| |[] m e]; simpl; try tauto; try discriminate; intros _ _.
  - exists 0. repeat split; try reflexivity; try lia; unfold Qle; simpl; lia.
  - destruct e as [|p|p].
    + exists (Z.pos m). rewrite Z.shiftl_0_r, Z.mul_1_r.
      repeat split; try lia; unfold Qle, Qlt; simpl; lia.
    + exists (Z.pos m * 2 ^ Z.pos p). rewrite Z.shiftl_mul_pow2 by lia.
      repeat split; try lia; unfold Qle, Qlt; simpl; lia.
    + exists (Z.pos m / 2 ^ Z.pos p). rewrite Z.shiftr_div_pow2 by lia.
      assert (Hpow : Z.pos (2 ^ p) = 2 ^ Z.pos p) by apply Pos2Z.inj_pow.
      assert (Hpos : 0 < 2 ^ Z.pos p) by lia.
      pose proof (Z.div_mod (Z.pos m) (2 ^ Z.pos p) ltac:(lia)) as Hdm.
      pose proof (Z.mod_pos_bound (Z.pos m) (2 ^ Z.pos p) Hpos) as Hmod.
      repeat split.
      * apply Z.div_pos; lia.
      * unfold Qle. simpl. rewrite Hpow. nia.
      * unfold Qlt. simpl. rewrite Hpow. nia.
Qed.

(** C10, on the strings whose value is a finite double. [parse_time]
    returns the whole seconds of what [parse_time_to_seconds] accepts: the
    integer [n >= 0] with [n <= seconds < n + 1]. *)
Theorem parse_time_truncates (time_str : string) (seconds : float) :
  parse_time_to_seconds time_str = Ok seconds ->
  PyFloat.is_finite seconds = true ->
  exists n, parse_time time_str = Ok n /\ 0 <= n
            /\ (inject_Z n <= PyFloat.to_Q seconds)%Q
            /\ (PyFloat.to_Q seconds < inject_Z (n + 1))%Q.
Proof.
  intros Hparse Hfin. unfold parse_time. rewrite Hparse. cbn [mbind result_bind].
  apply to_int_floor; [eapply parse_time_to_seconds_nonneg, Hparse | exact Hfin].
Qed.

Lemma parse_time_truncates_witness :
  parse_time_to_seconds "1:30.5" = Ok (S754_finite false 6368371348078592 (-46))
  /\ exists n, parse_time "1:30.5" = Ok n /\ 0 <= n
               /\ (inject_Z n <= 181 # 2)%Q /\ (181 # 2 < inject_Z (n + 1))%Q.
Proof.
  split; [reflexivity|].
  destruct (parse_time_truncates "1:30.5" (S754_finite false 6368371348078592 (-46))
              eq_refl eq_refl) as (n & Hn & H0 & Hle & Hlt).
  exists n. repeat split; try assumption.
  - unfold Qle in *. simpl in *. lia.
  - unfold Qlt in *. simpl in *. lia.
Defined.

(** Where the value is not finite it is infinity, and [parse_time] raises. *)
Lemma parse_time_infinite (time_str : string) (seconds : float) :
  parse_time_to_seconds time_str = Ok seconds ->
  PyFloat.is_finite seconds = false ->
  seconds = PyFloat.infinity
  /\ parse_time time_str = Raise (OverflowError "cannot convert float infinity to integer").
Proof.
  intros Hparse Hinf. unfold parse_time. rewrite Hparse. cbn [mbind result_bind].
  apply parse_time_to_seconds_nonneg in Hparse.
  destruct seconds as [[]|[]| |[] m e]; simpl in *;
    try contradiction; try discriminate; split; reflexivity.
Qed.

(** C10, as stated, fails on a string of 310 nines: [parse_time_to_seconds]
    accepts it, with the value infinity, and [parse_time] raises
    [OverflowError] on converting that to an integer. *)
Lemma parse_time_overflows :
  parse_time_to_seconds (Str.replicate 310 "9") = Ok PyFloat.infinity
  /\ parse_time (Str.replicate 310 "9")
     = Raise (OverflowError "cannot convert float infinity to integer").
Proof. split; vm_compute; reflexivity. Qed.

(** ** Splitting a time string *)






Lemma count_decimal (c : ascii) (s : string) :
  Str.isdecimal c = false -> Str.all Str.isdecimal s = true -> Str.count c s = 0%nat.
Proof.
  intros Hc. induction s as [|d s IH]; [reflexivity|]. simpl.
  intros [Hd Hs]%andb_true_iff.
  destruct (Ascii.eqb d c) eqn:E; [|now apply IH].
  apply Ascii.eqb_eq in E as ->. congruence.
Qed.

Lemma count_app (c : ascii) (a b : string) :
  Str.count c (a +:+ b) = (Str.count c a + Str.count c b)%nat.
Proof.
  induction a as [|d a IH]; [reflexivity|]. simpl.
  destruct (Ascii.eqb d c); simpl; now rewrite IH.
Qed.

Lemma is_empty_app (a b : string) :
  Str.is_empty (a +:+ b) = Str.is_empty a && Str.is_empty b.
Proof. now destruct a. Qed.







(** ** [parse_time_to_seconds] *)





Lemma of_str_Raise (s : string) (e : exn) :
  PyFloat.of_str s = Raise e -> exists msg, e = ValueError msg.
Proof.
  unfold PyFloat.of_str. destruct (PyFloat.split_point s) as [i f].
  destruct (_ && _); [discriminate|]. intros [= <-]. eauto.
Qed.

Lemma py_int_Raise (s : string) (e : exn) :
  py_int s = Raise e -> exists msg, e = ValueError msg.
Proof. unfold py_int. destruct (_ && _); [discriminate|]. intros [= <-]. eauto. Qed.

Lemma of_int_Raise (n : Z) (e : exn) :
  PyFloat.of_int n = Raise e -> e = OverflowError "int too large to convert to float".
Proof.
  unfold PyFloat.of_int. destruct (binary_normalize _ _ n 0 false); try discriminate.
  now intros [= <-].
Qed.





(** ** [load_frame_data] *)

Section LoadFacts.
Variable json_loads : string -> option json.
Variable json_dumps : bool -> json -> string.


End LoadFacts.


(** ** The file-name pattern *)

Lemma lower_decimal (c : ascii) : Str.isdecimal c = true -> Str.lower c = c.
Proof.
  destruct c as [[] [] [] [] [] [] [] []]; intros H; vm_compute in H;
    try discriminate H; reflexivity.
Qed.

Lemma isdecimal_lower_eq (c : ascii) : Str.isdecimal (Str.lower c) = Str.isdecimal c.
Proof. each_char c. Qed.

Lemma newline_lower (c : ascii) :
  Ascii.eqb (Str.lower c) Re.newline = Ascii.eqb c Re.newline.
Proof. each_char c. Qed.

Lemma map_lower_decimal (s : string) :
  Str.all Str.isdecimal s = true -> Str.map Str.lower s = s.
Proof.
  induction s as [|c s IH]; [reflexivity|]. simpl.
  intros [Hc Hs]%andb_true_iff. now rewrite lower_decimal, IH.
Qed.

Lemma atom_matches_lower (a : Re.atom) (c : ascii) :
  Re.atom_matches a (Str.lower c) = Re.atom_matches a c.
Proof.
  destruct a as [l|]; simpl; [now rewrite lower_idempotent | apply isdecimal_lower_eq].
Qed.

Lemma at_end_lower (s : string) : Re.at_end (Str.map Str.lower s) = Re.at_end s.
Proof. destruct s as [|c [|d s]]; simpl; auto using newline_lower. Qed.

Lemma repeat1_lower (k k' : string -> string -> option string) (s : string) :
  (forall s' t, k s' t = k' (Str.map Str.lower s') t) ->
  forall taken,
    Re.repeat1 Re.Digit k s taken = Re.repeat1 Re.Digit k' (Str.map Str.lower s) taken.
Proof.
  intros Hk. induction s as [|c s IH]; intros taken; [reflexivity|]. simpl.
  rewrite isdecimal_lower_eq. destruct (Str.isdecimal c) eqn:Hc; [|reflexivity].
  now rewrite (lower_decimal c Hc), IH, Hk.
Qed.

Lemma match_here_lower (p : Re.pattern) :
  Forall digit_group p ->
  forall s g, Re.match_here p s g = Re.match_here p (Str.map Str.lower s) g.
Proof.
  induction p as [|it p IH]; intros Hp s g; [reflexivity|].
  apply Forall_cons in Hp as [Hit Hp]. specialize (IH Hp).
  destruct it as [a|a|]; simpl.
  - destruct s as [|c s]; [reflexivity|]. simpl.
    rewrite atom_matches_lower. now destruct (Re.atom_matches a c).
  - simpl in Hit. subst a. now apply repeat1_lower.
  - rewrite at_end_lower. now destruct (Re.at_end s).
Qed.

Lemma index_pattern_digit_group (prefix : string) :
  Forall digit_group (index_pattern prefix).
Proof.
  unfold index_pattern. apply Forall_app. split.
  - induction prefix; simpl; constructor; auto. exact I.
  - repeat constructor.
Qed.

(** *** What the pattern accepts *)

Lemma match_escape_same (prefix : string) (rest : Re.pattern) (s g : string) :
  Re.match_here (Re.escape prefix ++ rest) (prefix +:+ s) g = Re.match_here rest s g.
Proof.
  induction prefix as [|c prefix IH]; [reflexivity|]. simpl.
  now rewrite Ascii.eqb_refl.
Qed.

Lemma match_extension (g N : string) :
  N = "" \/ N = String Re.newline "" ->
  Re.match_here extension_tail (".mp4" +:+ N) g = Some g.
Proof. now intros [-> | ->]. Qed.

Lemma repeat1_digits (k : string -> string -> option string) (digits rest : string) :
  is_digits digits = true ->
  (forall taken, Re.repeat1 Re.Digit k rest taken = None) ->
  forall taken,
    k rest (taken +:+ digits) = Some (taken +:+ digits) ->
    Re.repeat1 Re.Digit k (digits +:+ rest) taken = Some (taken +:+ digits).
Proof.
  intros Hd Hrest. apply andb_true_iff in Hd as [Hne Hall].
  induction digits as [|c digits IH]; [discriminate|]. clear Hne.
  simpl in Hall. apply andb_true_iff in Hall as [Hc Hall].
  intros taken Hk. simpl. rewrite Hc.
  replace (taken +:+ String c digits) with ((taken +:+ String c "") +:+ digits) in *
    by (now rewrite app_assoc).
  destruct digits as [|d digits].
  - simpl. rewrite Hrest. now rewrite app_empty_r in *.
  - rewrite IH; auto.
Qed.

Lemma match_index_canonical (prefix digits N : string) :
  is_digits digits = true ->
  N = "" \/ N = String Re.newline "" ->
  Re.match_group1 (index_pattern prefix) (prefix +:+ digits +:+ ".mp4" +:+ N) = Some digits.
Proof.
  intros Hd HN. unfold Re.match_group1, index_pattern.
  rewrite match_escape_same. simpl.
  apply (repeat1_digits _ digits (".mp4" +:+ N) Hd).
  - reflexivity.
  - simpl. now apply match_extension.
Qed.

(** *** What it takes for the pattern to accept *)

Lemma match_escape_inv (prefix : string) (rest : Re.pattern) (s g r : string) :
  Re.match_here (Re.escape prefix ++ rest) s g = Some r ->
  exists a b, s = a +:+ b
              /\ Str.map Str.lower a = Str.map Str.lower prefix
              /\ Re.match_here rest b g = Some r.
Proof.
  revert s. induction prefix as [|c prefix IH]; intros s; simpl.
  - intros H. now exists "", s.
  - destruct s as [|d s]; [discriminate|].
    destruct (Ascii.eqb (Str.lower c) (Str.lower d)) eqn:E; [|discriminate].
    apply Ascii.eqb_eq in E. intros (a & b & -> & Ha & Hb)%IH.
    exists (String d a), b. simpl. now rewrite Ha, E.
Qed.

Lemma repeat1_inv (k : string -> string -> option string) (s : string) :
  forall taken r,
    Re.repeat1 Re.Digit k s taken = Some r ->
    exists run rest, s = run +:+ rest /\ is_digits run = true
                     /\ k rest (taken +:+ run) = Some r.
Proof.
  induction s as [|c s IH]; intros taken r; simpl; [discriminate|].
  destruct (Str.isdecimal c) eqn:Hc; [|discriminate].
  destruct (Re.repeat1 Re.Digit k s (taken +:+ String c "")) as [r'|] eqn:E.
  - intros [= ->]. apply IH in E as (run & rest & -> & Hrun & Hk).
    exists (String c run), rest. rewrite app_assoc in Hk.
    split; [reflexivity|]. split; [|exact Hk].
    unfold is_digits in *. simpl. rewrite Hc.
    now apply andb_true_iff in Hrun as [_ ->].
  - intros Hk. exists (String c ""), s. split; [reflexivity|]. split; [|exact Hk].
    unfold is_digits. simpl. now rewrite Hc.
Qed.

Lemma match_one_inv (a : Re.atom) (p : Re.pattern) (s g r : string) :
  Re.match_here (Re.One a :: p) s g = Some r ->
  exists c s', s = String c s' /\ Re.atom_matches a c = true
               /\ Re.match_here p s' g = Some r.
Proof.
  destruct s as [|c s]; simpl; [discriminate|].
  destruct (Re.atom_matches a c) eqn:E; [|discriminate]. eauto.
Qed.

Lemma match_end_inv (p : Re.pattern) (s g r : string) :
  Re.match_here (Re.End :: p) s g = Some r ->
  Re.at_end s = true /\ Re.match_here p s g = Some r.
Proof. simpl. destruct (Re.at_end s); [auto | discriminate]. Qed.

Lemma at_end_inv (s : string) :
  Re.at_end s = true -> s = "" \/ s = String Re.newline "".
Proof.
  destruct s as [|n [|n' s]]; simpl; try discriminate; [now left|].
  intros ->%Ascii.eqb_eq. now right.
Qed.

Lemma match_extension_inv (s g r : string) :
  Re.match_here extension_tail s g = Some r ->
  r = g /\ exists E N, s = E +:+ N /\ Str.map Str.lower E = ".mp4"
                       /\ (N = "" \/ N = String Re.newline "").
Proof.
  unfold extension_tail, index_tail, tail.
  intros (c1 & s1 & -> & H1 & H)%match_one_inv.
  apply match_one_inv in H as (c2 & s2 & -> & H2 & H).
  apply match_one_inv in H as (c3 & s3 & -> & H3 & H).
  apply match_one_inv in H as (c4 & s4 & -> & H4 & H).
  apply match_end_inv in H as (Hend & H). simpl in H. injection H as <-.
  split; [reflexivity|].
  exists (String c1 (String c2 (String c3 (String c4 "")))), s4.
  split; [reflexivity|]. split; [|now apply at_end_inv].
  apply Ascii.eqb_eq in H1, H2, H3, H4. simpl. now rewrite <- H1, <- H2, <- H3, <- H4.
Qed.

Lemma match_index_inv (prefix name digits : string) :
  Re.match_group1 (index_pattern prefix) name = Some digits ->
  is_digits digits = true /\ names_index_nl prefix name (Str.digits_value digits).
Proof.
  unfold Re.match_group1, index_pattern.
  intros (a & b & -> & Ha & Hb)%match_escape_inv. simpl in Hb.
  apply repeat1_inv in Hb as (run & rest & -> & Hrun & Hk). simpl in Hk.
  apply match_extension_inv in Hk as (-> & E & N & -> & HE & HN).
  split; [exact Hrun|].
  assert (Hlow : Str.map Str.lower (a +:+ run +:+ E)
                 = Str.map Str.lower (prefix +:+ run +:+ ".mp4")).
  { rewrite !map_app, Ha, HE. reflexivity. }
  destruct HN as [-> | ->].
  - left. exists run. rewrite !app_empty_r. auto.
  - right. exists (a +:+ run +:+ E). split; [now rewrite !app_assoc|].
    exists run. auto.
Qed.

Lemma map_lower_snoc_newline (name name' : string) :
  name = name' +:+ String Re.newline "" ->
  Str.map Str.lower name = Str.map Str.lower name' +:+ String Re.newline "".
Proof. intros ->. now rewrite map_app. Qed.

Lemma match_index_complete (prefix name : string) (n : Z) :
  names_index_nl prefix name n ->
  exists digits, Re.match_group1 (index_pattern prefix) name = Some digits
                 /\ Str.digits_value digits = n.
Proof.
  unfold Re.match_group1.
  rewrite (match_here_lower _ (index_pattern_digit_group prefix) name).
  intros [(digits & Hd & -> & Hlow) | (name' & Hname & digits & Hd & -> & Hlow)];
    exists digits; (split; [|reflexivity]).
  - rewrite Hlow, <- (match_here_lower _ (index_pattern_digit_group prefix)).
    rewrite <- (app_empty_r ".mp4"). now apply match_index_canonical; [|left].
  - rewrite (map_lower_snoc_newline _ _ Hname), Hlow.
    change (String Re.newline "") with (Str.map Str.lower (String Re.newline "")).
    rewrite <- map_app, <- (match_here_lower _ (index_pattern_digit_group prefix)).
    rewrite !app_assoc. now apply match_index_canonical; [|right].
Qed.

(** ** [next_output_index] *)

Lemma is_digits_py_int (digits : string) :
  is_digits digits = true -> py_int digits = Ok (Str.digits_value digits).
Proof. unfold is_digits, py_int. now intros ->. Qed.

Lemma is_digits_nonneg (digits : string) :
  is_digits digits = true -> 0 <= Str.digits_value digits.
Proof.
  intros [_ H]%andb_true_iff. now apply digits_value_from_nonneg.
Qed.

Lemma scan_entries_max (prefix : string) (entries : list string) :
  forall max_idx,
  exists r,
    scan_entries (index_pattern prefix) entries max_idx = Ok r
    /\ max_idx <= r
    /\ (forall name n, name ∈ entries -> names_index_nl prefix name n -> n <= r)
    /\ (r = max_idx \/ exists name, name ∈ entries /\ names_index_nl prefix name r).
Proof.
  induction entries as [|filename entries IH]; intros max_idx; simpl.
  - exists max_idx. split; [reflexivity|]. split; [lia|]. split; [|now left].
    intros name n Hin. now apply not_elem_of_nil in Hin.
  - destruct (Re.match_group1 (index_pattern prefix) filename) as [digits|] eqn:E.
    + destruct (match_index_inv _ _ _ E) as [Hd Hidx].
      rewrite (is_digits_py_int _ Hd). cbn [mbind result_bind].
      destruct (IH (Z.max max_idx (Str.digits_value digits)))
        as (r & Hr & Hle & Hall & Hex).
      exists r. split; [exact Hr|]. split; [lia|]. split.
      * intros name n [-> | Hin]%elem_of_cons Hn; [|now apply (Hall name)].
        apply match_index_complete in Hn as (digits' & E' & <-).
        rewrite E in E'. injection E' as <-. lia.
      * destruct Hex as [-> | (name & Hin & Hn)].
        -- destruct (Z.max_spec max_idx (Str.digits_value digits)) as [[_ ->] | [_ ->]];
             [right | now left].
           exists filename. split; [apply list_elem_of_here | exact Hidx].
        -- right. exists name. split; [now apply list_elem_of_further | exact Hn].
    + destruct (IH max_idx) as (r & Hr & Hle & Hall & Hex).
      exists r. split; [exact Hr|]. split; [exact Hle|]. split.
      * intros name n [-> | Hin]%elem_of_cons Hn; [|now apply (Hall name)].
        apply match_index_complete in Hn as (digits' & E' & _). congruence.
      * destruct Hex as [-> | (name & Hin & Hn)]; [now left|].
        right. exists name. split; [now apply list_elem_of_further | exact Hn].
Qed.



(** The example of the specification: files 001 and 003 give 4, the gap is
    not filled; and a directory that is missing gives 1. *)
Example next_output_index_gap :
  next_output_index "Ryu" "Hadouken" OUTPUT_DIR sample_dirs = Ok 4
  /\ next_output_index "Ryu" "Hadouken" OUTPUT_DIR ∅ = Ok 1.
Proof. split; vm_compute; reflexivity. Qed.

Lemma last_char_app (a b : string) :
  Str.is_empty b = false -> last_char (a +:+ b) = last_char b.
Proof.
  intros Hb. induction a as [|c a IH]; [reflexivity|]. simpl.
  destruct (a +:+ b) eqn:E; [|exact IH].
  destruct a; simpl in E; [subst b|]; discriminate.
Qed.


(** * Further properties *)

(** ** Numbers in file names *)

Lemma digits_value_from_app (s t : string) :
  forall acc,
    Str.digits_value_from acc (s +:+ t)
    = Str.digits_value_from (Str.digits_value_from acc s) t.
Proof. induction s as [|c s IH]; intros acc; simpl; auto. Qed.

Lemma digit_char_decimal (d : Z) :
  0 <= d < 10 -> Str.isdecimal (digit_char d) = true /\ Str.digit_value (digit_char d) = d.
Proof.
  intros H.
  assert (d = 0 \/ d = 1 \/ d = 2 \/ d = 3 \/ d = 4 \/ d = 5 \/ d = 6 \/ d = 7
          \/ d = 8 \/ d = 9) as Hd by lia.
  repeat destruct Hd as [-> | Hd]; try subst d; split; reflexivity.
Qed.

Lemma decimal_go_spec (fuel : nat) :
  forall n acc,
    0 <= n -> (Z.to_nat (Z.log2 n) < fuel)%nat ->
    exists ds, decimal_go fuel n acc = ds +:+ acc
               /\ is_digits ds = true /\ Str.digits_value ds = n.
Proof.
  induction fuel as [|fuel IH]; intros n acc Hn Hfuel; [lia|]. simpl.
  pose proof (Z.mod_pos_bound n 10 ltac:(lia)) as Hmod.
  destruct (digit_char_decimal (n mod 10) Hmod) as [Hdec Hval].
  destruct (n <? 10) eqn:Hlt.
  - apply Z.ltb_lt in Hlt. exists (String (digit_char (n mod 10)) "").
    split; [reflexivity|]. unfold is_digits, Str.digits_value. simpl.
    rewrite Hdec, Hval. split; [reflexivity|]. rewrite Z.mod_small; lia.
  - apply Z.ltb_ge in Hlt.
    assert (Hdiv : 0 <= n / 10) by (apply Z.div_pos; lia).
    assert (Hlog : (Z.to_nat (Z.log2 (n / 10)) < fuel)%nat).
    { assert (Z.log2 (n / 10) < Z.log2 n); [|pose proof (Z.log2_nonneg (n / 10)); lia].
      destruct (Z.log2_spec n ltac:(lia)) as [_ Hup].
      assert (0 < n / 10) by (apply Z.div_str_pos; lia).
      apply Z.log2_lt_pow2; [assumption|].
      rewrite Z.pow_succ_r in Hup by apply Z.log2_nonneg.
      apply Z.div_lt_upper_bound; lia. }
    destruct (IH (n / 10) (String (digit_char (n mod 10)) acc) Hdiv Hlog)
      as (ds & -> & Hds & Hv).
    exists (ds +:+ String (digit_char (n mod 10)) "").
    split; [now rewrite app_assoc|].
    unfold is_digits in *. apply andb_true_iff in Hds as [Hne Hall].
    split.
    + rewrite is_empty_app, all_app. simpl. rewrite Hall, Hdec.
      apply negb_true_iff in Hne. now rewrite Hne.
    + unfold Str.digits_value in *. rewrite digits_value_from_app, Hv. simpl.
      rewrite Hval. pose proof (Z.div_mod n 10 ltac:(lia)). lia.
Qed.

Lemma decimal_spec (n : Z) :
  0 <= n -> is_digits (decimal n) = true /\ Str.digits_value (decimal n) = n.
Proof.
  intros Hn. unfold decimal.
  destruct (decimal_go_spec (S (Z.to_nat (Z.log2 n))) n "" Hn ltac:(lia))
    as (ds & -> & Hds & Hv).
  now rewrite app_empty_r.
Qed.

Lemma replicate_zeros (k : nat) :
  Str.all Str.isdecimal (Str.replicate k "0") = true
  /\ forall acc, Str.digits_value_from acc (Str.replicate k "0") = acc * 10 ^ Z.of_nat k.
Proof.
  induction k as [|k [IHa IHv]].
  - split; [reflexivity | intros; simpl; lia].
  - split; [exact IHa|]. intros acc.
    cbn [Str.replicate Str.digits_value_from]. rewrite IHv.
    change (Str.digit_value "0") with 0.
    rewrite Nat2Z.inj_succ, Z.pow_succ_r by lia. lia.
Qed.

Lemma zero_pad_spec (width : nat) (s : string) :
  is_digits s = true ->
  is_digits (zero_pad width s) = true
  /\ Str.digits_value (zero_pad width s) = Str.digits_value s
  /\ (width <= String.length (zero_pad width s))%nat.
Proof.
  unfold is_digits, zero_pad, Str.digits_value.
  intros [Hne Hall]%andb_true_iff.
  destruct (replicate_zeros (width - String.length s)) as [Hz Hv].
  repeat split.
  - rewrite is_empty_app, all_app, Hz, Hall.
    apply negb_true_iff in Hne. now rewrite Hne, andb_false_r.
  - now rewrite digits_value_from_app, Hv.
  - assert (Hlen : forall a b, String.length (a +:+ b) = (String.length a + String.length b)%nat).
    { induction a; intros; simpl; auto. }
    assert (Hrep : forall k c, String.length (Str.replicate k c) = k).
    { induction k; intros; simpl; auto. }
    rewrite Hlen, Hrep. lia.
Qed.

Lemma format_03d_spec (n : Z) :
  0 <= n ->
  is_digits (format_03d n) = true
  /\ Str.digits_value (format_03d n) = n
  /\ (3 <= String.length (format_03d n))%nat.
Proof.
  intros Hn. unfold format_03d.
  destruct (n <? 0) eqn:E; [apply Z.ltb_lt in E; lia|].
  destruct (decimal_spec n Hn) as [Hd Hv].
  destruct (zero_pad_spec 3 (decimal n) Hd) as (H1 & H2 & H3).
  now rewrite H2.
Qed.

(** ** Labels *)

Lemma filter_all (p : ascii -> bool) (s : string) : Str.all p (Str.filter p s) = true.
Proof.
  induction s as [|c s IH]; [reflexivity|]. simpl.
  destruct (p c) eqn:E; simpl; [now rewrite E|exact IH].
Qed.

Lemma filter_fixed (p : ascii -> bool) (s : string) :
  Str.all p s = true -> Str.filter p s = s.
Proof.
  induction s as [|c s IH]; [reflexivity|]. simpl.
  intros [Hc Hs]%andb_true_iff. now rewrite Hc, IH.
Qed.

Lemma count_outside (p : ascii -> bool) (c : ascii) (s : string) :
  p c = false -> Str.all p s = true -> Str.count c s = 0%nat.
Proof.
  intros Hc. induction s as [|d s IH]; [reflexivity|]. simpl.
  intros [Hd Hs]%andb_true_iff.
  destruct (Ascii.eqb d c) eqn:E; [|now apply IH].
  apply Ascii.eqb_eq in E as ->. congruence.
Qed.

Lemma sanitize_label_alnum (label : string) :
  Str.is_empty (sanitize_label label) = false
  /\ Str.all Str.isalnum (sanitize_label label) = true.
Proof.
  unfold sanitize_label.
  destruct (Str.is_empty (Str.filter Str.isalnum label)) eqn:E.
  - split; reflexivity.
  - split; [exact E | apply filter_all].
Qed.

(** X1. A sanitized label is never empty and has only alphanumeric
    characters, so no path separator; sanitizing it again changes nothing; a
    label that is alphanumeric already is kept as it is; and a character
    that is not alphanumeric leaves no trace, so two labels that differ by
    such characters only get the same directory and file prefix. *)
Theorem sanitize_label_safe (label : string) :
  Str.is_empty (sanitize_label label) = false
  /\ Str.all Str.isalnum (sanitize_label label) = true
  /\ Str.count "/" (sanitize_label label) = 0%nat
  /\ sanitize_label (sanitize_label label) = sanitize_label label
  /\ (Str.is_empty label = false -> Str.all Str.isalnum label = true ->
      sanitize_label label = label)
  /\ (forall p q c, label = p +:+ String c q -> Str.isalnum c = false ->
                    sanitize_label label = sanitize_label (p +:+ q)).
Proof.
  destruct (sanitize_label_alnum label) as [Hne Hall].
  assert (Hfix : forall s, Str.is_empty s = false -> Str.all Str.isalnum s = true ->
                           sanitize_label s = s).
  { intros s Hs Ha. unfold sanitize_label. now rewrite (filter_fixed _ _ Ha), Hs. }
  split; [exact Hne|]. split; [exact Hall|].
  split; [now apply (count_outside Str.isalnum)|].
  split; [now apply Hfix|]. split; [apply Hfix|].
  intros p q c -> Hc. unfold sanitize_label. rewrite !filter_app. simpl. now rewrite Hc.
Qed.

Lemma sanitize_label_safe_witness :
  sanitize_label "Ryu" = "Ryu" /\ sanitize_label "Low Kick" = sanitize_label "LowKick".
Proof.
  split.
  - exact (proj1 (proj2 (proj2 (proj2 (proj2 (sanitize_label_safe "Ryu")))))
             eq_refl eq_refl).
  - exact (proj2 (proj2 (proj2 (proj2 (proj2 (sanitize_label_safe "Low Kick")))))
             "Low" "Kick" " "%char eq_refl eq_refl).
Defined.

(** ** Resolved names *)

Lemma first_normalized_keys {V W : Type} (target : string) (d : pydict V) (d' : pydict W) :
  Dict.keys d = Dict.keys d' ->
  Dict.first_normalized target d = Dict.first_normalized target d'.
Proof.
  revert d'. induction d as [|[k v] d IH]; intros [|[k' v'] d']; simpl; try discriminate;
    [reflexivity|].
  intros [= <- Hk]. destruct (String.eqb (normalize_key k) target); [reflexivity|].
  now apply IH.
Qed.

Lemma resolve_normal {V : Type} (name : string) (d : pydict V) :
  normalize_key (resolve name d) = normalize_key name.
Proof.
  unfold resolve. destruct (Dict.first_normalized _ d) as [key|] eqn:E; [|reflexivity].
  now apply first_normalized_Some in E.
Qed.

(** A name with the normal form of [name] resolves as [name] does, once the
    resolved key is in the mapping. *)
Lemma resolve_same_normal {V : Type} (name name' : string) (d : pydict V) :
  normalize_key name' = normalize_key name ->
  resolve name d ∈ Dict.keys d ->
  resolve name' d = resolve name d.
Proof.
  unfold resolve. intros Hn. rewrite Hn.
  destruct (Dict.first_normalized (normalize_key name) d) as [key|] eqn:E; [reflexivity|].
  intros Hin. apply first_normalized_None in E. destruct E.
  now apply list_elem_of_fmap_2.
Qed.

Lemma resolve_idempotent {V : Type} (name : string) (d : pydict V) :
  resolve (resolve name d) d = resolve name d.
Proof.
  destruct (decide (normalize_key name ∈ normalize_key <$> Dict.keys d)) as [Hin | Hout].
  - apply resolve_same_normal; [apply resolve_normal | now apply resolve_stored].
  - rewrite (resolve_literal name d Hout). now apply resolve_literal.
Qed.

(** X2. The name a matcher returns has the normal form of the name asked
    for, whether it is a stored key or the name itself, and matching it
    again returns it: the flow may resolve the same name any number of
    times. Two spellings with the same normal form get the same stored key
    as soon as one stored key has that normal form. *)
Theorem match_names_stable (character name name' move move' : string)
    (frame_data : frame_table) :
  let moves := default [] (Dict.get character frame_data) in
  normalize_key (match_character_name name frame_data) = normalize_key name
  /\ match_character_name (match_character_name name frame_data) frame_data
     = match_character_name name frame_data
  /\ normalize_key (match_move_name character move frame_data) = normalize_key move
  /\ match_move_name character (match_move_name character move frame_data) frame_data
     = match_move_name character move frame_data
  /\ (normalize_key name' = normalize_key name ->
      normalize_key name ∈ normalize_key <$> Dict.keys frame_data ->
      match_character_name name' frame_data = match_character_name name frame_data)
  /\ (normalize_key move' = normalize_key move ->
      normalize_key move ∈ normalize_key <$> Dict.keys moves ->
      match_move_name character move' frame_data
      = match_move_name character move frame_data).
Proof.
  intros moves. rewrite !match_character_name_resolve, !match_move_name_resolve.
  fold moves.
  split; [apply resolve_normal|]. split; [apply resolve_idempotent|].
  split; [apply resolve_normal|]. split; [apply resolve_idempotent|].
  split; intros Hn Hin; rewrite ?match_character_name_resolve, ?match_move_name_resolve;
    fold moves; apply resolve_same_normal; try exact Hn; now apply resolve_stored.
Qed.

Lemma match_names_stable_witness :
  match_character_name "RYU" sample_table = match_character_name "r y u" sample_table
  /\ match_move_name "Ryu" "lowkick" sample_table
     = match_move_name "Ryu" "LOW KICK" sample_table.
Proof.
  pose proof (match_names_stable "Ryu" "r y u" "RYU" "LOW KICK" "lowkick" sample_table)
    as (_ & _ & _ & _ & Hc & Hm).
  split; [apply Hc | apply Hm]; first [reflexivity | compute_done].
Defined.

(** ** Accepted times *)

(** X3. A time that [parse_time_to_seconds] accepts is never negative and
    never NaN: it is zero, a positive number or positive infinity, and
    compares [>= 0.0]. *)
Theorem parse_time_to_seconds_sign (time_str : string) (seconds : float) :
  parse_time_to_seconds time_str = Ok seconds ->
  nonnegative seconds
  /\ PyFloat.is_nan seconds = false
  /\ PyFloat.ge seconds PyFloat.zero = true.
Proof.
  intros H%parse_time_to_seconds_nonneg.
  destruct seconds as [[]|[]| |[] m e]; simpl in H; try contradiction; repeat split.
Qed.

Lemma parse_time_to_seconds_sign_witness :
  nonnegative (S754_finite false 6368371348078592 (-46))
  /\ PyFloat.ge (S754_finite false 6368371348078592 (-46)) PyFloat.zero = true.
Proof.
  destruct (parse_time_to_seconds_sign "1:30.5" (S754_finite false 6368371348078592 (-46))
              eq_refl) as (H1 & _ & H2).
  split; assumption.
Defined.

(** ** Asking for a frame count *)

Lemma get_set_other {V : Type} (k k' : string) (v : V) (d : pydict V) :
  k' <> k -> Dict.get k' (Dict.set k v d) = Dict.get k' d.
Proof.
  intros Hne. induction d as [|[k0 v0] d IH]; simpl.
  - destruct (String.eqb k k') eqn:E; [|reflexivity].
    apply String.eqb_eq in E. now destruct Hne.
  - destruct (String.eqb k0 k) eqn:E; simpl.
    + apply String.eqb_eq in E as ->.
      destruct (String.eqb k k') eqn:E'; [|reflexivity].
      apply String.eqb_eq in E'. now destruct Hne.
    + now rewrite IH.
Qed.



Lemma get_setdefault {V : Type} (k : string) (v0 : V) (d : pydict V) :
  Dict.get k (Dict.setdefault k v0 d) = Some (default v0 (Dict.get k d)).
Proof.
  unfold Dict.setdefault. destruct (Dict.get k d) as [v|] eqn:E; simpl; [exact E|].
  apply get_set_same.
Qed.

Lemma get_setdefault_other {V : Type} (k k' : string) (v0 : V) (d : pydict V) :
  k' <> k -> Dict.get k' (Dict.setdefault k v0 d) = Dict.get k' d.
Proof.
  intros Hne. unfold Dict.setdefault. destruct (Dict.get k d); [reflexivity|].
  now apply get_set_other.
Qed.


Section AskFacts.
Variable json_dumps : bool -> json -> string.

(** The loop, one line at a time. *)
Lemma ensure_loop_step (char_key move_key path line : string) (inputs : list string)
    (frame_data : frame_table) (w : world) (moves : move_table) :
  Dict.get char_key frame_data = Some moves ->
  Dict.get move_key moves = None ->
  let asked := print (frame_prompt char_key move_key) w in
  ensure_loop json_dumps char_key move_key path (line :: inputs) frame_data w
  = if rejected_line line then
      ensure_loop json_dumps char_key move_key path inputs frame_data
        (print (retry_message line) asked)
    else
      match py_int (Str.strip line) with
      | Raise e => (Raise e, frame_data, inputs, asked)
      | Ok n =>
          let frame_data' := Dict.set char_key (Dict.set move_key n moves) frame_data in
          (Ok n, frame_data', inputs,
           print (saved_line char_key move_key n)
             (save_frame_data json_dumps (json_of_table frame_data') path asked))
      end.
Proof.
  intros Hc Hm asked. cbn [ensure_loop]. rewrite Hc, Hm.
  unfold rejected_line, retry_message. fold (frame_prompt char_key move_key). fold asked.
  destruct (Str.is_empty (Str.strip line)); [reflexivity|]. cbn [orb].
  destruct (Str.str_isdigit (Str.strip line)); [|reflexivity]. cbn [negb].
  destruct (py_int (Str.strip line)) as [n|e]; [|reflexivity].
  fold (saved_line char_key move_key n).
  erewrite ensure_loop_known; [reflexivity | apply get_set_same | apply get_set_same].
Qed.

Lemma ensure_loop_eof (char_key move_key path : string)
    (frame_data : frame_table) (w : world) (moves : move_table) :
  Dict.get char_key frame_data = Some moves ->
  Dict.get move_key moves = None ->
  ensure_loop json_dumps char_key move_key path [] frame_data w
  = (Raise EOFError, frame_data, [], print (frame_prompt char_key move_key) w).
Proof. intros Hc Hm. cbn [ensure_loop]. now rewrite Hc, Hm. Qed.


(** The keys the call works under. *)
Lemma ensure_move_frames_loop (character move path : string) (frame_data : frame_table)
    (inputs : list string) (w : world) :
  let char_key := resolve character frame_data in
  let moves := default [] (Dict.get char_key frame_data) in
  let table := Dict.setdefault char_key [] frame_data in
  ensure_move_frames json_dumps character move frame_data path inputs w
  = ensure_loop json_dumps char_key (resolve move moves) path inputs table w
  /\ Dict.get char_key table = Some moves.
Proof.
  intros char_key moves table. unfold ensure_move_frames.
  rewrite match_character_name_resolve, match_move_name_resolve.
  fold char_key. fold table.
  assert (H : Dict.get char_key table = Some moves) by apply get_setdefault.
  split; [|exact H].
  change (ensure_loop json_dumps char_key
            (resolve move (default [] (Dict.get char_key table))) path inputs table w
          = ensure_loop json_dumps char_key (resolve move moves) path inputs table w).
  now rewrite H.
Qed.

(** A move that is stored, under whatever spelling it is asked for. *)
Lemma ensure_move_frames_stored (character move c m path : string)
    (frame_data : frame_table) (inputs : list string) (w : world) (n : Z) :
  table_ok frame_data ->
  count_of c m frame_data = Some n ->
  normalize_key character = normalize_key c ->
  normalize_key move = normalize_key m ->
  ensure_move_frames json_dumps character move frame_data path inputs w
  = (Ok n, frame_data, inputs, w).
Proof.
  intros [Hd Hall] Hcount Hc Hm. unfold count_of in Hcount.
  destruct (Dict.get c frame_data) as [moves|] eqn:Hget; [|discriminate].
  cbn [mbind option_bind] in Hcount.
  destruct (ensure_move_frames_loop character move path frame_data inputs w) as [-> Hmoves].
  assert (Hkey : resolve character frame_data = c).
  { apply resolve_that_key; [exact Hd | eapply get_Some_keys, Hget | now symmetry]. }
  rewrite Hkey in *. rewrite Hget in *. simpl in Hmoves. simpl.
  assert (Hmove : resolve move moves = m).
  { apply resolve_that_key; [|eapply get_Some_keys, Hcount | now symmetry].
    rewrite Forall_forall in Hall. apply (Hall (c, moves)). now apply get_Some_elem. }
  rewrite Hmove, setdefault_present by (eapply get_Some_keys, Hget).
  now apply ensure_loop_known with (moves := moves).
Qed.

(** However the loop ends: with the count that is stored under the two
    keys, the table as it was or with that one count more and then written
    to the file; or with an error, before anything was stored. *)
Lemma ensure_loop_outcome (char_key move_key path : string) (inputs : list string) :
  forall (frame_data : frame_table) (w : world) (moves : move_table),
    Dict.get char_key frame_data = Some moves ->
    let out := ensure_loop json_dumps char_key move_key path inputs frame_data w in
    (exists used, inputs = used ++ inputs_after out)
    /\ ((exists n,
           returned out = Ok n
           /\ count_of char_key move_key (table_after out) = Some n
           /\ ((Dict.get move_key moves = Some n
                /\ table_after out = frame_data /\ world_after out = w
                /\ inputs_after out = inputs)
               \/ (Dict.get move_key moves = None
                   /\ table_after out
                      = Dict.set char_key (Dict.set move_key n moves) frame_data
                   /\ files (world_after out)
                      = <[path := json_dumps true (json_of_table (table_after out))]>
                          (files w))))
        \/ (exists e,
             returned out = Raise e
             /\ (e = EOFError /\ inputs_after out = [] \/ exists msg, e = ValueError msg)
             /\ Dict.get move_key moves = None
             /\ table_after out = frame_data
             /\ files (world_after out) = files w)).
Proof.
  induction inputs as [|line inputs IH]; intros frame_data w moves Hc out; subst out.
  - destruct (Dict.get move_key moves) as [frames|] eqn:Hm.
    + rewrite (ensure_loop_known _ _ _ _ _ _ _ moves frames Hc Hm).
      unfold returned, table_after, world_after, inputs_after. cbn [fst snd].
      split; [now exists []|]. left. exists frames. unfold count_of. rewrite Hc. simpl.
      repeat split; auto.
    + rewrite (ensure_loop_eof _ _ _ _ _ moves Hc Hm).
      unfold returned, table_after, world_after, inputs_after. cbn [fst snd].
      split; [now exists []|]. right. exists EOFError. simpl. repeat split; auto.
  - destruct (Dict.get move_key moves) as [frames|] eqn:Hm.
    + rewrite (ensure_loop_known _ _ _ _ _ _ _ moves frames Hc Hm).
      unfold returned, table_after, world_after, inputs_after. cbn [fst snd].
      split; [now exists []|]. left. exists frames. unfold count_of. rewrite Hc. simpl.
      repeat split; auto.
    + rewrite (ensure_loop_step _ _ _ _ _ _ _ moves Hc Hm). cbv zeta.
      destruct (rejected_line line).
      * specialize (IH frame_data
                      (print (retry_message line) (print (frame_prompt char_key move_key) w))
                      moves Hc).
        cbv zeta in IH. destruct IH as [[used Hused] IH].
        split; [exists (line :: used); simpl; now f_equal|].
        destruct IH as [(n & Hr & Hcount & [(Hk & _) | (_ & Ht & Hf)])
                       | (e & Hr & He & _ & Ht & Hf)].
        -- congruence.
        -- left. exists n. repeat split; auto.
        -- right. exists e. repeat split; auto.
      * destruct (py_int (Str.strip line)) as [n|e] eqn:En.
        -- unfold returned, table_after, world_after, inputs_after. cbn [fst snd].
           split; [now exists [line]|]. left. exists n.
           unfold count_of. rewrite get_set_same. simpl. rewrite get_set_same.
           repeat split; auto.
        -- unfold returned, table_after, world_after, inputs_after. cbn [fst snd].
           split; [now exists [line]|]. right. exists e.
           apply py_int_Raise in En. repeat split; auto.
Qed.

Lemma count_of_set (char_key move_key c m : string) (n k : Z)
    (frame_data : frame_table) (moves : move_table) :
  Dict.get char_key frame_data = Some moves ->
  Dict.get move_key moves = None ->
  count_of c m frame_data = Some k ->
  count_of c m (Dict.set char_key (Dict.set move_key n moves) frame_data) = Some k.
Proof.
  intros Hc Hm. unfold count_of.
  destruct (decide (c = char_key)) as [-> | Hne].
  - rewrite Hc, get_set_same. simpl. intros Hk.
    rewrite get_set_other; [exact Hk|]. intros ->. congruence.
  - now rewrite get_set_other.
Qed.

Lemma count_of_setdefault (char_key c m : string) (k : Z) (frame_data : frame_table) :
  count_of c m frame_data = Some k ->
  count_of c m (Dict.setdefault char_key [] frame_data) = Some k.
Proof.
  unfold count_of. destruct (decide (c = char_key)) as [-> | Hne].
  - rewrite get_setdefault. now destruct (Dict.get char_key frame_data).
  - now rewrite get_setdefault_other.
Qed.

End AskFacts.

Lemma elem_of_keys_setdefault {V : Type} (k k' : string) (v : V) (d : pydict V) :
  k' ∈ Dict.keys d -> k' ∈ Dict.keys (Dict.setdefault k v d).
Proof.
  intros Hin. destruct (decide (k ∈ Dict.keys d)) as [Hk | Hk].
  - now rewrite setdefault_present.
  - rewrite setdefault_absent, keys_set_absent by assumption.
    apply elem_of_app. now left.
Qed.

Lemma sample_table_ok : table_ok sample_table.
Proof. split; [compute_done|]. repeat constructor; compute_done. Defined.

Section Asking.
Variable json_dumps : bool -> json -> string.

(** X4. A move that has a count in the table is never asked for, under
    whatever spelling of the character and the move it is requested, as long
    as no two keys of the table share a normal form: [ensure_move_frames]
    returns the stored count, reads no line, prints and writes nothing and
    leaves the table as it is, and [get_clip_range] is then the window of
    that count. *)
Theorem known_move_is_not_asked_for (character move c m path : string)
    (frame_data : frame_table) (inputs : list string) (w : world) (n : Z)
    (center_ts video_duration : float) (frame_data_path : option string)
    (fps extra_pre extra_post : option float) :
  table_ok frame_data ->
  count_of c m frame_data = Some n ->
  normalize_key character = normalize_key c ->
  normalize_key move = normalize_key m ->
  ensure_move_frames json_dumps character move frame_data path inputs w
  = (Ok n, frame_data, inputs, w)
  /\ get_clip_range json_dumps character move center_ts video_duration frame_data
       frame_data_path fps extra_pre extra_post inputs w
     = (computeWindow n center_ts video_duration (default DEFAULT_FPS fps)
          (default DEFAULT_EXTRA_PRE extra_pre) (default DEFAULT_EXTRA_POST extra_post),
        frame_data, inputs, w).
Proof.
  intros Hok Hcount Hc Hm. split.
  - now apply ensure_move_frames_stored with (c := c) (m := m).
  - unfold get_clip_range.
    now rewrite (ensure_move_frames_stored json_dumps character move c m _ frame_data
                   inputs w n Hok Hcount Hc Hm).
Qed.


(** X6. What [ensure_move_frames] has returned once, it returns again from
    the table it left, for every spelling of the same character and move,
    without asking, printing or writing. *)
Theorem ensure_move_frames_remembers (character move character' move' path path' : string)
    (frame_data : frame_table) (inputs inputs' : list string) (w w' : world) (n : Z) :
  table_ok frame_data ->
  let out := ensure_move_frames json_dumps character move frame_data path inputs w in
  returned out = Ok n ->
  normalize_key character' = normalize_key character ->
  normalize_key move' = normalize_key move ->
  ensure_move_frames json_dumps character' move' (table_after out) path' inputs' w'
  = (Ok n, table_after out, inputs', w').
Proof.
  intros Hok out Hret Hc Hm. subst out.
  destruct (ensure_move_frames_loop json_dumps character move path frame_data inputs w)
    as [E Hmoves].
  rewrite E in Hret |- *.
  set (char_key := resolve character frame_data) in *.
  set (moves := default [] (Dict.get char_key frame_data)) in *.
  set (move_key := resolve move moves) in *.
  set (table := Dict.setdefault char_key [] frame_data) in *.
  destruct (ensure_loop_outcome json_dumps char_key move_key path inputs table w moves Hmoves)
    as [_ [(n' & Hr & Hcount & _) | (e & Hr & _)]].
  2: { rewrite Hr in Hret. discriminate Hret. }
  rewrite Hr in Hret. injection Hret as ->.
  apply ensure_move_frames_stored with (c := char_key) (m := move_key).
  - apply ensure_loop_table_ok.
    + apply table_ok_setdefault; [exact Hok | apply resolve_storable].
    + intros moves' Hget. pose proof (eq_trans (eq_sym Hmoves) Hget) as Heq.
      injection Heq as <-. apply resolve_storable.
  - exact Hcount.
  - rewrite Hc. symmetry. apply resolve_normal.
  - rewrite Hm. symmetry. apply resolve_normal.
Qed.

(** A count that is stored stays stored. *)
Lemma ensure_move_frames_count_kept (character move path c m : string)
    (frame_data : frame_table) (inputs : list string) (w : world) (k : Z) :
  count_of c m frame_data = Some k ->
  count_of c m (table_after (ensure_move_frames json_dumps character move frame_data path
                               inputs w)) = Some k.
Proof.
  destruct (ensure_move_frames_loop json_dumps character move path frame_data inputs w)
    as [-> Hmoves].
  set (char_key := resolve character frame_data) in *.
  set (moves := default [] (Dict.get char_key frame_data)) in *.
  set (move_key := resolve move moves) in *.
  set (offered := Dict.setdefault char_key [] frame_data) in *.
  intros Hk%(count_of_setdefault char_key). fold offered in Hk.
  destruct (ensure_loop_outcome json_dumps char_key move_key path inputs offered w moves
              Hmoves)
    as [_ [(n & _ & _ & [(_ & -> & _) | (Hnone & -> & _)]) | (e & _ & _ & _ & -> & _)]];
    try exact Hk.
  now apply count_of_set.
Qed.

Lemma ensure_move_frames_table_ok (character move path : string)
    (frame_data : frame_table) (inputs : list string) (w : world) :
  table_ok frame_data ->
  table_ok (table_after (ensure_move_frames json_dumps character move frame_data path
                           inputs w)).
Proof.
  intros Hok.
  destruct (ensure_move_frames_loop json_dumps character move path frame_data inputs w)
    as [-> Hmoves].
  apply ensure_loop_table_ok.
  - apply table_ok_setdefault; [exact Hok | apply resolve_storable].
  - intros moves' Hget. pose proof (eq_trans (eq_sym Hmoves) Hget) as Heq.
    injection Heq as <-. apply resolve_storable.
Qed.

(** X7. [ensure_move_frames] never changes or removes what the table
    holds: every count that was stored is stored after the call, under the
    same keys, and every character is still there, however the call ends. *)
Theorem ensure_move_frames_keeps_counts (character move path c m : string)
    (frame_data : frame_table) (inputs : list string) (w : world) (k : Z) :
  let table := table_after (ensure_move_frames json_dumps character move frame_data path
                              inputs w) in
  (count_of c m frame_data = Some k -> count_of c m table = Some k)
  /\ (c ∈ Dict.keys frame_data -> c ∈ Dict.keys table).
Proof.
  intros table. subst table. split; [apply ensure_move_frames_count_kept|].
  destruct (ensure_move_frames_loop json_dumps character move path frame_data inputs w)
    as [-> _].
  intros Hin. rewrite ensure_loop_keys. now apply elem_of_keys_setdefault.
Qed.


End Asking.

Lemma known_move_is_not_asked_for_witness :
  ensure_move_frames (fun _ _ => "") "RYU" "low kick" sample_table FRAME_DATA_PATH
    ["never read"] (World ∅ [])
  = (Ok 22, sample_table, ["never read"], World ∅ []).
Proof.
  exact (proj1 (known_move_is_not_asked_for (fun _ _ => "") "RYU" "low kick" "Ryu" "Low Kick"
                  FRAME_DATA_PATH sample_table ["never read"] (World ∅ []) 22
                  five hundred None None None None
                  sample_table_ok eq_refl eq_refl eq_refl)).
Defined.


Lemma ensure_move_frames_remembers_witness :
  ensure_move_frames (fun _ _ => "") "R Y U" "SHORYUKEN"
    (table_after (ensure_move_frames (fun _ _ => "") "ryu" "Shoryuken" sample_table
                    FRAME_DATA_PATH ["48"] (World ∅ [])))
    FRAME_DATA_PATH [] (World ∅ [])
  = (Ok 48,
     table_after (ensure_move_frames (fun _ _ => "") "ryu" "Shoryuken" sample_table
                    FRAME_DATA_PATH ["48"] (World ∅ [])),
     [], World ∅ []).
Proof.
  exact (ensure_move_frames_remembers (fun _ _ => "") "ryu" "Shoryuken" "R Y U" "SHORYUKEN"
           FRAME_DATA_PATH FRAME_DATA_PATH sample_table ["48"] [] (World ∅ []) (World ∅ [])
           48 sample_table_ok eq_refl eq_refl eq_refl).
Defined.

Lemma ensure_move_frames_keeps_counts_witness :
  count_of "Chun Li" "Lightning Legs"
    (table_after (ensure_move_frames (fun _ _ => "") "ryu" "Shoryuken" sample_table
                    FRAME_DATA_PATH ["48"] (World ∅ [])))
  = Some 35.
Proof.
  exact (proj1 (ensure_move_frames_keeps_counts (fun _ _ => "") "ryu" "Shoryuken"
                  FRAME_DATA_PATH "Chun Li" "Lightning Legs" sample_table ["48"]
                  (World ∅ []) 35) eq_refl).
Defined.

(** ** The names of the clips *)

Lemma scan_entries_greatest (prefix : string) (entries : list string) (r : Z) :
  scan_entries (index_pattern prefix) entries 0 = Ok r ->
  0 <= r
  /\ (forall name n, name ∈ entries -> names_index_nl prefix name n -> n <= r)
  /\ (r = 0 \/ exists name, name ∈ entries /\ names_index_nl prefix name r).
Proof.
  destruct (scan_entries_max prefix entries 0) as (r' & -> & H). now intros [= <-].
Qed.

Lemma scan_entries_total (prefix : string) (entries : list string) :
  exists r, scan_entries (index_pattern prefix) entries 0 = Ok r.
Proof. destruct (scan_entries_max prefix entries 0) as (r & H & _). eauto. Qed.

(** The greatest index depends on which names there are, not on their
    order. *)
Lemma scan_entries_same_names (prefix : string) (entries entries' : list string) :
  (forall name, name ∈ entries <-> name ∈ entries') ->
  scan_entries (index_pattern prefix) entries 0
  = scan_entries (index_pattern prefix) entries' 0.
Proof.
  intros Hsame.
  destruct (scan_entries_total prefix entries) as [r Hr].
  destruct (scan_entries_total prefix entries') as [r' Hr'].
  rewrite Hr, Hr'. f_equal.
  apply scan_entries_greatest in Hr as (H0 & Hall & Hex).
  apply scan_entries_greatest in Hr' as (H0' & Hall' & Hex').
  assert (r <= r').
  { destruct Hex as [-> | (name & Hin & Hn)]; [exact H0'|].
    apply (Hall' name); [now apply Hsame | exact Hn]. }
  assert (r' <= r).
  { destruct Hex' as [-> | (name & Hin & Hn)]; [exact H0|].
    apply (Hall name); [now apply Hsame | exact Hn]. }
  lia.
Qed.

Lemma names_index_nl_functional (prefix name : string) (n n' : Z) :
  names_index_nl prefix name n -> names_index_nl prefix name n' -> n = n'.
Proof.
  intros (digits & E & <-)%match_index_complete (digits' & E' & <-)%match_index_complete.
  congruence.
Qed.

Lemma clip_filename_index (character move : string) (index : Z) :
  0 <= index ->
  names_index (index_prefix character move) (clip_filename character move index) index.
Proof.
  intros H. destruct (format_03d_spec index H) as (Hd & Hv & _).
  exists (format_03d index). split; [exact Hd|]. split; [now symmetry|].
  unfold clip_filename, index_prefix. now rewrite !app_assoc.
Qed.

(** The name of the next index is new in the directory, whatever the case
    of the letters. *)
Lemma next_name_fresh (character move : string) (entries : list string) (r : Z) :
  scan_entries (index_pattern (index_prefix character move)) entries 0 = Ok r ->
  forall name, name ∈ entries ->
    Str.map Str.lower name <> Str.map Str.lower (clip_filename character move (r + 1)).
Proof.
  intros (H0 & Hall & _)%scan_entries_greatest name Hin Heq.
  destruct (clip_filename_index character move (r + 1)) as (digits & Hd & Hv & Hlow); [lia|].
  assert (r + 1 <= r); [|lia].
  apply (Hall name _ Hin). left. exists digits. split; [exact Hd|]. split; [exact Hv|].
  now rewrite Heq.
Qed.

(** With that name in the directory, the next index is one more. *)
Lemma next_name_counts (character move : string) (entries entries' : list string) (r : Z) :
  scan_entries (index_pattern (index_prefix character move)) entries 0 = Ok r ->
  (forall name, name ∈ entries' <->
                name = clip_filename character move (r + 1) \/ name ∈ entries) ->
  scan_entries (index_pattern (index_prefix character move)) entries' 0 = Ok (r + 1).
Proof.
  intros (H0 & Hall & _)%scan_entries_greatest Hnames.
  destruct (scan_entries_total (index_prefix character move) entries') as [r' Hr'].
  rewrite Hr'. f_equal.
  apply scan_entries_greatest in Hr' as (_ & Hall' & Hex').
  assert (Hnew : names_index_nl (index_prefix character move)
                   (clip_filename character move (r + 1)) (r + 1)).
  { left. apply clip_filename_index. lia. }
  assert (r + 1 <= r').
  { apply (Hall' (clip_filename character move (r + 1))); [|exact Hnew].
    apply Hnames. now left. }
  destruct Hex' as [-> | (name & Hin & Hn)]; [lia|].
  apply Hnames in Hin as [-> | Hin].
  - exact (names_index_nl_functional _ _ _ _ Hn Hnew).
  - specialize (Hall name r' Hin Hn). lia.
Qed.

Section NextIndex.
Variables character move out_dir : string.

(** X9. The index [next_output_index] returns depends on which names the
    directory of the move holds, not on the order in which the system lists
    them nor on how often: two trees whose directories hold the same names
    give the same index, and a directory that is missing gives what an empty
    one gives. *)
Theorem next_output_index_any_order (dirs dirs' : gmap string (list string)) :
  let move_dir :=
    os_path_join (os_path_join out_dir (sanitize_label character)) (sanitize_label move) in
  (forall name, name ∈ default [] (dirs !! move_dir)
                <-> name ∈ default [] (dirs' !! move_dir)) ->
  next_output_index character move out_dir dirs
  = next_output_index character move out_dir dirs'.
Proof.
  intros move_dir Hsame.
  assert (Hnone : forall entries, (forall name : string, name ∉ entries) ->
            (max_idx ← scan_entries (index_pattern (index_prefix character move)) entries 0;
             Ok (max_idx + 1)) = Ok 1).
  { intros [|name entries] Hno; [reflexivity|]. destruct (Hno name). apply list_elem_of_here. }
  unfold next_output_index. fold move_dir.
  destruct (dirs !! move_dir) as [entries|], (dirs' !! move_dir) as [entries'|];
    simpl in Hsame.
  - now rewrite (scan_entries_same_names _ entries entries' Hsame).
  - apply Hnone. intros name Hin%Hsame. now apply not_elem_of_nil in Hin.
  - symmetry. apply Hnone. intros name Hin%Hsame. now apply not_elem_of_nil in Hin.
  - reflexivity.
Qed.

(** X10. The file name made of the index [next_output_index] returns is
    one the pattern reads back with that very index; no entry of the
    directory has it, not even in another case of the letters; and once it
    is among the entries, in any place, the next index is one more. *)
Theorem next_output_index_names_a_new_file
    (dirs dirs' : gmap string (list string)) (index : Z) :
  let move_dir :=
    os_path_join (os_path_join out_dir (sanitize_label character)) (sanitize_label move) in
  let filename := clip_filename character move index in
  next_output_index character move out_dir dirs = Ok index ->
  names_index (index_prefix character move) filename index
  /\ (forall name, name ∈ default [] (dirs !! move_dir) ->
                   Str.map Str.lower name <> Str.map Str.lower filename)
  /\ ((forall name, name ∈ default [] (dirs' !! move_dir)
                    <-> name = filename \/ name ∈ default [] (dirs !! move_dir)) ->
      next_output_index character move out_dir dirs' = Ok (index + 1)).
Proof.
  intros move_dir filename. subst filename. unfold next_output_index. fold move_dir.
  destruct (dirs !! move_dir) as [entries|] eqn:Hdir; simpl.
  - destruct (scan_entries_total (index_prefix character move) entries) as [r Hr].
    rewrite Hr. cbn [mbind result_bind]. intros [= <-].
    split; [apply clip_filename_index; apply scan_entries_greatest in Hr; lia|].
    split; [now apply next_name_fresh|].
    intros Hnames. destruct (dirs' !! move_dir) as [entries'|]; simpl in Hnames.
    + now rewrite (next_name_counts _ _ entries entries' r Hr Hnames).
    + exfalso. apply (not_elem_of_nil (clip_filename character move (r + 1))).
      apply Hnames. now left.
  - intros [= <-]. split; [now apply clip_filename_index|].
    split; [intros name Hin; now apply not_elem_of_nil in Hin|].
    intros Hnames. destruct (dirs' !! move_dir) as [entries'|]; simpl in Hnames.
    + now rewrite (next_name_counts _ _ [] entries' 0 eq_refl Hnames).
    + exfalso. apply (not_elem_of_nil (clip_filename character move 1)).
      apply Hnames. now left.
Qed.

End NextIndex.

Lemma next_output_index_any_order_witness :
  next_output_index "Ryu" "Hadouken" OUTPUT_DIR
    {[ "output/Ryu/Hadouken" := ["Ryu_Hadouken_003.mp4"; "notes.txt"; "Ryu_Hadouken_001.mp4"] ]}
  = next_output_index "Ryu" "Hadouken" OUTPUT_DIR
      {[ "output/Ryu/Hadouken" := ["Ryu_Hadouken_001.mp4"; "Ryu_Hadouken_003.mp4";
                                   "notes.txt"; "Ryu_Hadouken_001.mp4"] ]}.
Proof.
  apply (next_output_index_any_order "Ryu" "Hadouken" OUTPUT_DIR). intros name.
  change (name ∈ ["Ryu_Hadouken_003.mp4"; "notes.txt"; "Ryu_Hadouken_001.mp4"]
          <-> name ∈ ["Ryu_Hadouken_001.mp4"; "Ryu_Hadouken_003.mp4";
                      "notes.txt"; "Ryu_Hadouken_001.mp4"]).
  rewrite !elem_of_cons, !elem_of_nil. tauto.
Defined.

Lemma next_output_index_names_a_new_file_witness :
  names_index "Ryu_Hadouken_" "Ryu_Hadouken_004.mp4" 4
  /\ next_output_index "Ryu" "Hadouken" OUTPUT_DIR
       {[ "output/Ryu/Hadouken" := ["Ryu_Hadouken_004.mp4"; "Ryu_Hadouken_001.mp4";
                                    "Ryu_Hadouken_003.mp4"] ]}
     = Ok 5.
Proof.
  destruct (next_output_index_names_a_new_file "Ryu" "Hadouken" OUTPUT_DIR sample_dirs
              {[ "output/Ryu/Hadouken" := ["Ryu_Hadouken_004.mp4"; "Ryu_Hadouken_001.mp4";
                                           "Ryu_Hadouken_003.mp4"] ]} 4 eq_refl)
    as (Hname & _ & Hnext).
  split; [exact Hname|]. apply Hnext. intros name.
  change (name ∈ ["Ryu_Hadouken_004.mp4"; "Ryu_Hadouken_001.mp4"; "Ryu_Hadouken_003.mp4"]
          <-> name = "Ryu_Hadouken_004.mp4"
              \/ name ∈ ["Ryu_Hadouken_001.mp4"; "Ryu_Hadouken_003.mp4"]).
  rewrite !elem_of_cons, !elem_of_nil. tauto.
Defined.

(** ** Paths *)

Lemma rev_last_char (a : string) (c : ascii) :
  last_char a = Some c -> exists r, String.rev a = String c r.
Proof.
  unfold String.rev. generalize EmptyString.
  induction a as [|d a IH]; intros acc; [discriminate|].
  destruct a as [|d' a'].
  - simpl. intros [= ->]. eauto.
  - intros H. change (last_char (String d' a') = Some c) in H.
    exact (IH (String d acc) H).
Qed.

Lemma last_char_Some (a : string) :
  Str.is_empty a = false -> exists c, last_char a = Some c.
Proof.
  induction a as [|d a IH]; [discriminate|]. intros _. simpl.
  destruct a as [|d' a']; [eauto|]. now apply IH.
Qed.

Lemma last_char_all (p : ascii -> bool) (a : string) (c : ascii) :
  Str.all p a = true -> last_char a = Some c -> p c = true.
Proof.
  induction a as [|d a IH]; [discriminate|]. simpl.
  intros [Hd Ha]%andb_true_iff. destruct a as [|d' a'].
  - now intros [= <-].
  - now apply IH.
Qed.

(** Joining a directory that does not end in a slash with a name that has
    none puts one slash between them. *)
Lemma os_path_join_name (a b : string) (c : ascii) :
  last_char a = Some c -> c <> "/"%char ->
  Str.is_empty b = false -> Str.count "/" b = 0%nat ->
  os_path_join a b = a +:+ "/" +:+ b.
Proof.
  intros Ha Hc Hb Hcount. unfold os_path_join.
  destruct b as [|b0 b]; [discriminate|].
  destruct (Ascii.eqb b0 "/") eqn:E.
  { simpl in Hcount. now rewrite E in Hcount. }
  destruct (rev_last_char a c Ha) as [r ->].
  assert (Hb0 : b0 <> "/"%char) by (intros ->; now rewrite Ascii.eqb_refl in E).
  destruct b0 as [[] [] [] [] [] [] [] []]; try reflexivity;
    destruct c as [[] [] [] [] [] [] [] []]; try reflexivity; contradiction.
Qed.

Lemma split_last_slash_name (a b : string) :
  Str.count "/" b = 0%nat ->
  split_last_slash (a +:+ String "/" b) = Some (a +:+ "/", b).
Proof.
  intros Hb.
  assert (Hnone : split_last_slash b = None).
  { induction b as [|d b IH]; [reflexivity|]. simpl in Hb |- *.
    destruct (Ascii.eqb d "/"); [discriminate|]. now rewrite IH. }
  induction a as [|d a IH]; simpl.
  - now rewrite Hnone.
  - now rewrite IH.
Qed.

Lemma rstrip_slash_dir (a : string) (c : ascii) :
  last_char a = Some c -> c <> "/"%char -> rstrip_slash (a +:+ "/") = a.
Proof.
  intros Ha Hc. induction a as [|d a IH]; [discriminate|].
  destruct a as [|d' a'].
  - injection Ha as ->. simpl.
    destruct (Ascii.eqb c "/") eqn:E; [|reflexivity].
    apply Ascii.eqb_eq in E. contradiction.
  - change ((String d (String d' a')) +:+ "/") with (String d (String d' a' +:+ "/")).
    cbn [rstrip_slash]. rewrite IH by exact Ha. simpl. now rewrite andb_false_r.
Qed.

Lemma all_slash_last (a : string) (c : ascii) :
  last_char a = Some c -> c <> "/"%char ->
  Str.all (fun c => Ascii.eqb c "/") (a +:+ "/") = false.
Proof.
  intros Ha Hc. induction a as [|d a IH]; [discriminate|].
  destruct a as [|d' a'].
  - injection Ha as ->. simpl.
    destruct (Ascii.eqb c "/") eqn:E; [|reflexivity].
    apply Ascii.eqb_eq in E. contradiction.
  - change ((String d (String d' a')) +:+ "/") with (String d (String d' a' +:+ "/")).
    cbn [Str.all]. rewrite IH by exact Ha. apply andb_false_r.
Qed.

(** The directory and the name come apart again. *)
Lemma path_split_join (a b : string) (c : ascii) :
  last_char a = Some c -> c <> "/"%char ->
  Str.is_empty b = false -> Str.count "/" b = 0%nat ->
  path_split (os_path_join a b) = (a, b).
Proof.
  intros Ha Hc Hb Hcount. rewrite (os_path_join_name a b c) by assumption.
  unfold path_split. change ("/" +:+ b) with (String "/" b).
  rewrite split_last_slash_name by exact Hcount.
  now rewrite (all_slash_last a c), (rstrip_slash_dir a c).
Qed.

Lemma sanitize_label_last (label : string) :
  exists c, last_char (sanitize_label label) = Some c /\ c <> "/"%char.
Proof.
  destruct (sanitize_label_alnum label) as [Hne Hall].
  destruct (last_char_Some _ Hne) as [c Hc]. exists c. split; [exact Hc|].
  intros ->. now pose proof (last_char_all _ _ _ Hall Hc).
Qed.

Lemma sanitize_label_no_slash (label : string) :
  Str.count "/" (sanitize_label label) = 0%nat.
Proof.
  destruct (sanitize_label_alnum label) as [_ Hall].
  now apply (count_outside Str.isalnum).
Qed.

Lemma clip_filename_no_slash (character move : string) (index : Z) :
  0 <= index ->
  Str.is_empty (clip_filename character move index) = false
  /\ Str.count "/" (clip_filename character move index) = 0%nat.
Proof.
  intros H. destruct (format_03d_spec index H) as ([_ Hd]%andb_true_iff & _ & _).
  destruct (sanitize_label_alnum character) as [Hne _].
  unfold clip_filename. split.
  - rewrite is_empty_app, Hne. reflexivity.
  - rewrite !count_app, !sanitize_label_no_slash.
    now rewrite (count_decimal "/" _ eq_refl Hd).
Qed.

(** ** Writing a move clip *)

(** What [save_move_clip] does, for every argument. *)
Lemma save_move_clip_effect (character move : string) (start_time end_time : float)
    (d : disk) (w : world) :
  let move_dir :=
    os_path_join (os_path_join OUTPUT_DIR (sanitize_label character)) (sanitize_label move) in
  let entries := default [] (listing d !! move_dir) in
  exists r,
    let filename := clip_filename character move (r + 1) in
    let output_path := move_dir +:+ "/" +:+ filename in
    scan_entries (index_pattern (index_prefix character move)) entries 0 = Ok r
    /\ 0 <= r
    /\ next_output_index character move OUTPUT_DIR (listing d) = Ok (r + 1)
    /\ Str.count "/" filename = 0%nat
    /\ (filename ∉ entries)
    /\ save_move_clip character move start_time end_time d w
       = (None,
          Disk (<[move_dir := entries ++ [filename]]> (listing d))
            (written d ++ [(output_path, Float start_time, Float end_time)]),
          print ("Writing: " +:+ output_path) w).
Proof.
  intros move_dir entries.
  destruct (scan_entries_total (index_prefix character move) entries) as [r Hr].
  assert (H0 : 0 <= r) by (apply scan_entries_greatest in Hr; lia).
  exists r. cbv zeta.
  set (filename := clip_filename character move (r + 1)).
  assert (Hindex : forall dirs : gmap string (list string),
            (forall name, name ∈ default [] (dirs !! move_dir) <-> name ∈ entries) ->
            next_output_index character move OUTPUT_DIR dirs = Ok (r + 1)).
  { intros dirs Hsame. unfold next_output_index. fold move_dir.
    destruct (dirs !! move_dir) as [entries'|]; simpl in Hsame.
    - rewrite (scan_entries_same_names _ entries' entries Hsame), Hr. reflexivity.
    - destruct entries as [|name entries]; [now injection Hr as <-|].
      destruct (not_elem_of_nil name). apply Hsame, list_elem_of_here. }
  assert (Hfresh : filename ∉ entries).
  { intros Hin. now apply (next_name_fresh character move entries r Hr filename Hin). }
  destruct (sanitize_label_last move) as (c & Hc & Hslash).
  assert (Hdir : last_char move_dir = Some c).
  { unfold move_dir.
    destruct (sanitize_label_last character) as (c' & Hc' & Hslash').
    destruct (sanitize_label_alnum move) as [Hne _].
    rewrite (os_path_join_name (os_path_join OUTPUT_DIR (sanitize_label character))
               (sanitize_label move) c').
    - change ("/" +:+ sanitize_label move) with (String "/" (sanitize_label move)).
      rewrite last_char_app by reflexivity. simpl.
      destruct (sanitize_label move); [discriminate | exact Hc].
    - destruct (sanitize_label_alnum character) as [Hne' _].
      rewrite (os_path_join_name OUTPUT_DIR (sanitize_label character) "t");
        [| reflexivity | discriminate | exact Hne' | apply sanitize_label_no_slash].
      change ("/" +:+ sanitize_label character)
        with (String "/" (sanitize_label character)).
      rewrite last_char_app by reflexivity. simpl.
      destruct (sanitize_label character); [discriminate | exact Hc'].
    - exact Hslash'.
    - exact Hne.
    - apply sanitize_label_no_slash. }
  destruct (clip_filename_no_slash character move (r + 1)) as [Hne Hcount]; [lia|].
  fold filename in Hne, Hcount.
  split; [exact Hr|]. split; [exact H0|]. split; [apply Hindex; tauto|].
  split; [exact Hcount|]. split; [exact Hfresh|].
  unfold save_move_clip. fold move_dir.
  assert (Hmk : listing (makedirs move_dir d) !! move_dir = Some entries).
  { unfold makedirs, entries. destruct (listing d !! move_dir) eqn:E; simpl.
    - exact E.
    - apply lookup_insert_eq. }
  rewrite (Hindex (listing (makedirs move_dir d))) by (rewrite Hmk; simpl; tauto).
  fold filename. unfold write_videofile.
  rewrite (path_split_join move_dir filename c Hdir Hslash Hne Hcount), Hmk.
  rewrite (os_path_join_name move_dir filename c Hdir Hslash Hne Hcount).
  rewrite bool_decide_eq_false_2 by exact Hfresh.
  do 2 f_equal. unfold makedirs.
  destruct (listing d !! move_dir) eqn:E; simpl; [reflexivity|].
  now rewrite insert_insert_eq.
Qed.


(** ** The order of the keys *)

Lemma keys_NoDup {V : Type} (d : pydict V) : distinct_keys d -> NoDup (Dict.keys d).
Proof. apply NoDup_fmap_1. Qed.

Lemma get_Some_iff {V : Type} (k : string) (v : V) (d : pydict V) :
  NoDup (Dict.keys d) -> Dict.get k d = Some v <-> (k, v) ∈ d.
Proof.
  intros Hnd. split; [apply get_Some_elem|].
  induction d as [|[k' v'] d IH]; [now intros ?%not_elem_of_nil|].
  simpl in Hnd. apply NoDup_cons in Hnd as [Hfresh Hnd].
  intros [[= -> ->] | Hin]%elem_of_cons; simpl.
  - now rewrite String.eqb_refl.
  - destruct (String.eqb k' k) eqn:E; [|now apply IH].
    apply String.eqb_eq in E as ->. destruct Hfresh.
    now apply (list_elem_of_fmap_2 fst d (k, v)).
Qed.

Lemma keys_permutation {V : Type} (d d' : pydict V) :
  d ≡ₚ d' -> Dict.keys d ≡ₚ Dict.keys d'.
Proof. intros H. unfold Dict.keys. now rewrite H. Qed.

Lemma distinct_keys_permutation {V : Type} (d d' : pydict V) :
  d ≡ₚ d' -> distinct_keys d -> distinct_keys d'.
Proof. unfold distinct_keys. intros H. now rewrite (keys_permutation d d' H). Qed.

Lemma get_permutation {V : Type} (k : string) (d d' : pydict V) :
  distinct_keys d -> d ≡ₚ d' -> Dict.get k d = Dict.get k d'.
Proof.
  intros Hd Hp.
  assert (Hd' : distinct_keys d') by now apply (distinct_keys_permutation d).
  apply keys_NoDup in Hd, Hd'.
  destruct (Dict.get k d) as [v|] eqn:E.
  - symmetry. apply get_Some_iff; [exact Hd'|]. rewrite <- Hp. now apply get_Some_iff.
  - destruct (Dict.get k d') as [v'|] eqn:E'; [|reflexivity].
    apply get_Some_iff in E'; [|exact Hd']. rewrite <- Hp in E'.
    apply get_Some_iff in E'; [congruence | exact Hd].
Qed.

Lemma resolve_permutation {V : Type} (name : string) (d d' : pydict V) :
  distinct_keys d -> d ≡ₚ d' -> resolve name d = resolve name d'.
Proof.
  intros Hd Hp.
  assert (Hd' : distinct_keys d') by now apply (distinct_keys_permutation d).
  pose proof (keys_permutation d d' Hp) as Hk.
  destruct (decide (normalize_key name ∈ normalize_key <$> Dict.keys d)) as [Hin | Hout].
  - destruct (resolve_stored name d Hin) as [Hkey Hn].
    symmetry. apply resolve_that_key; [exact Hd' | now rewrite <- Hk | exact Hn].
  - rewrite (resolve_literal name d Hout). symmetry. apply resolve_literal.
    now rewrite <- Hk.
Qed.

(** Moves in another order under the same characters in the same order. *)
Lemma get_moves_reordered (k : string) (frame_data mid : frame_table) :
  Forall2 (fun e e' => e.1 = e'.1 /\ e.2 ≡ₚ e'.2) frame_data mid ->
  Dict.keys frame_data = Dict.keys mid
  /\ match Dict.get k frame_data, Dict.get k mid with
     | Some moves, Some moves' => moves ≡ₚ moves'
     | None, None => True
     | _, _ => False
     end.
Proof.
  induction 1 as [|[k1 v1] [k2 v2] d d' [Hk Hv] _ [IHk IHg]]; [now split|].
  simpl in Hk, Hv. subst k2. simpl. split; [now f_equal|].
  now destruct (String.eqb k1 k).
Qed.

Lemma table_ok_reordered (frame_data frame_data' : frame_table) :
  table_ok frame_data -> reordered frame_data frame_data' -> table_ok frame_data'.
Proof.
  intros [Hd Hall] (mid & Hmid & Hp).
  assert (Hok : table_ok mid).
  { split.
    - unfold distinct_keys. now rewrite <- (proj1 (get_moves_reordered EmptyString _ _ Hmid)).
    - clear Hd Hp. induction Hmid as [|e e' d d' [_ Hv] _ IH]; [constructor|].
      apply Forall_cons in Hall as [He Hall]. constructor; [|now apply IH].
      now apply (distinct_keys_permutation e.2). }
  destruct Hok as [Hd' Hall']. split.
  - now apply (distinct_keys_permutation mid).
  - now rewrite <- Hp.
Qed.

Lemma moves_reordered (k : string) (frame_data frame_data' : frame_table) :
  table_ok frame_data -> reordered frame_data frame_data' ->
  match Dict.get k frame_data, Dict.get k frame_data' with
  | Some moves, Some moves' => distinct_keys moves /\ moves ≡ₚ moves'
  | None, None => True
  | _, _ => False
  end.
Proof.
  intros Hok (mid & Hmid & Hp).
  assert (Hok' : table_ok mid) by (apply (table_ok_reordered frame_data); [|exists mid]; auto).
  destruct (get_moves_reordered k _ _ Hmid) as [_ Hg].
  rewrite <- (get_permutation (V := move_table) k mid frame_data' (proj1 Hok') Hp).
  destruct (Dict.get k frame_data) as [moves|] eqn:E, (Dict.get (V := move_table) k mid);
    try exact Hg.
  split; [|exact Hg]. destruct Hok as [_ Hall]. rewrite Forall_forall in Hall.
  apply (Hall (k, moves)). now apply get_Some_elem.
Qed.

(** X12. What the program looks up does not depend on the order of the
    keys, in a table where no two keys of a level share a normal form. The
    file is written with [sort_keys=True], so a table that is saved and
    loaded again has its characters and moves in another order: both
    matchers still return the same names and every count is found as
    before, and the reordered table is again such a table. *)
Theorem lookups_ignore_key_order (frame_data frame_data' : frame_table) :
  table_ok frame_data -> reordered frame_data frame_data' ->
  table_ok frame_data'
  /\ (forall name,
        match_character_name name frame_data = match_character_name name frame_data')
  /\ (forall character move,
        match_move_name character move frame_data
        = match_move_name character move frame_data')
  /\ (forall character move,
        count_of character move frame_data = count_of character move frame_data').
Proof.
  intros Hok Hre. split; [now apply (table_ok_reordered frame_data)|].
  split; [|split].
  - intros name. change (resolve name frame_data = resolve name frame_data').
    destruct Hre as (mid & Hmid & Hp).
    assert (Hok' : table_ok mid)
      by (apply (table_ok_reordered frame_data); [|exists mid]; auto).
    rewrite <- (resolve_permutation (V := move_table) name mid frame_data' (proj1 Hok') Hp).
    unfold resolve.
    now rewrite (first_normalized_keys (V := move_table) (W := move_table) _ frame_data mid
                   (proj1 (get_moves_reordered EmptyString _ _ Hmid))).
  - intros character move.
    change (resolve move (default [] (Dict.get character frame_data))
            = resolve move (default [] (Dict.get character frame_data'))).
    pose proof (moves_reordered character _ _ Hok Hre) as Hm.
    destruct (Dict.get character frame_data), (Dict.get character frame_data');
      try contradiction; [|reflexivity].
    simpl. now apply resolve_permutation.
  - intros character move. unfold count_of.
    pose proof (moves_reordered character _ _ Hok Hre) as Hm.
    destruct (Dict.get character frame_data), (Dict.get character frame_data');
      try contradiction; [|reflexivity].
    simpl. now apply get_permutation.
Qed.

Lemma lookups_ignore_key_order_witness :
  match_move_name "Ryu" "lowkick" sample_table
  = match_move_name "Ryu" "lowkick" sample_table_sorted
  /\ count_of "Chun Li" "Lightning Legs" sample_table
     = count_of "Chun Li" "Lightning Legs" sample_table_sorted.
Proof.
  assert (Hre : reordered sample_table sample_table_sorted).
  { exists sample_table. split; [|apply perm_swap].
    repeat constructor. }
  destruct (lookups_ignore_key_order sample_table sample_table_sorted sample_table_ok Hre)
    as (_ & _ & Hm & Hc).
  split; [apply Hm | apply Hc].
Defined.

(** ** Loading twice *)

Section LoadTwice.
Variable json_loads : string -> option json.
Variable json_dumps : bool -> json -> string.


End LoadTwice.


(** ** The manual trim *)








Section Trim.
Variable videos : gmap string float.




End Trim.



Lemma parse_time_to_seconds_raises (s : string) (e : exn) :
  parse_time_to_seconds s = Raise e ->
  (exists msg, e = ValueError msg) \/ (exists msg, e = OverflowError msg).
Proof.
  unfold parse_time_to_seconds.
  destruct (Str.is_empty s); [intros [= <-]; eauto|].
  destruct (Str.split ":" s) as [|p0 [|p1 [|p2 ps]]]; try (intros [= <-]; eauto; fail).
  - destruct (negb _); [intros [= <-]; eauto|].
    intros (msg & ->)%of_str_Raise. eauto.
  - destruct (_ || _); [intros [= <-]; eauto|].
    destruct (py_int p0) as [m|e0] eqn:Em; cbn [mbind result_bind].
    2:{ intros [= <-]. apply py_int_Raise in Em as [msg ->]. eauto. }
    destruct (PyFloat.of_str p1) as [v|e1] eqn:Ev; cbn [mbind result_bind].
    2:{ intros [= <-]. apply of_str_Raise in Ev as [msg ->]. eauto. }
    unfold PyFloat.int_add.
    destruct (PyFloat.of_int (m * 60)) as [fm|e2] eqn:Ef; cbn [mbind result_bind];
      [discriminate|].
    intros [= <-]. apply of_int_Raise in Ef as ->. eauto.
Qed.


Section ManualTrim.
Variable videos : gmap string float.


End ManualTrim.


(** ** The move extractor *)

Lemma computeWindow_default_results (frames : Z) (center_ts video_duration : float) :
  match computeWindow frames center_ts video_duration DEFAULT_FPS
          DEFAULT_EXTRA_PRE DEFAULT_EXTRA_POST with
  | Ok window => PyFloat.is_nan video_duration = false -> inside_video video_duration window
  | Raise e => (exists msg, e = ValueError msg) \/ (exists msg, e = OverflowError msg)
  end.
Proof.
  destruct (PyFloat.of_int frames) as [ff|e] eqn:Hff.
  - destruct (clamped_bounds_defined frames center_ts video_duration DEFAULT_FPS
                DEFAULT_EXTRA_PRE DEFAULT_EXTRA_POST ff eq_refl Hff) as (x & y & Hb).
    unfold computeWindow. rewrite Hb. cbn [mbind result_bind].
    destruct (PyFloat.ge (PyFloat.max PyFloat.zero x) (PyFloat.min video_duration y)) eqn:Hge.
    + left. eauto.
    + intros Hd. destruct (max_zero x) as [Hs_nan Hs].
      destruct (min_duration video_duration y Hd) as [He_nan He].
      repeat split; simpl; auto with pyfloat.
  - rewrite (computeWindow_overflow _ _ _ _ _ _ _ Hff).
    apply of_int_Raise in Hff as ->. right. eauto.
Qed.

Section SessionFacts.
Variable json_dumps : bool -> json -> string.
Variable duration : float.

Lemma get_clip_range_results (character move : string) (center_ts : float)
    (frame_data : frame_table) (inputs : list string) (w : world) :
  let out := get_clip_range json_dumps character move center_ts duration frame_data
               (Some FRAME_DATA_PATH) None None None inputs w in
  table_step json_dumps frame_data (table_after out)
  /\ inputs_after out `suffix_of` inputs
  /\ match returned out with
     | Ok window => PyFloat.is_nan duration = false -> inside_video duration window
     | Raise e =>
         (exists msg, e = ValueError msg) \/ (exists msg, e = OverflowError msg)
         \/ (e = EOFError /\ inputs_after out = [])
     end.
Proof.
  intros out. subst out. unfold get_clip_range.
  change (default FRAME_DATA_PATH (Some FRAME_DATA_PATH)) with FRAME_DATA_PATH.
  change (default DEFAULT_FPS None) with DEFAULT_FPS.
  change (default DEFAULT_EXTRA_PRE None) with DEFAULT_EXTRA_PRE.
  change (default DEFAULT_EXTRA_POST None) with DEFAULT_EXTRA_POST.
  pose proof (ensure_move_frames_loop json_dumps character move FRAME_DATA_PATH frame_data
                inputs w) as [Eloop Hmoves].
  pose proof (ensure_loop_outcome json_dumps (resolve character frame_data)
                (resolve move
                   (default [] (Dict.get (resolve character frame_data) frame_data)))
                FRAME_DATA_PATH inputs _ w _ Hmoves)
    as [Hused Hout].
  cbv zeta in Hout. rewrite <- Eloop in Hused, Hout.
  assert (Hstep : table_step json_dumps frame_data
                    (table_after (ensure_move_frames json_dumps character move frame_data
                                    FRAME_DATA_PATH inputs w))).
  { now exists character, move, FRAME_DATA_PATH, inputs, w. }
  destruct (ensure_move_frames json_dumps character move frame_data FRAME_DATA_PATH inputs w)
    as [[[r fd] ins] w'].
  cbv beta iota zeta delta [returned table_after inputs_after fst snd] in *.
  split; [exact Hstep|]. split; [destruct Hused as [used Hused]; now exists used|].
  destruct Hout as [(n & -> & _) | (e & -> & He & _)]; cbn [mbind result_bind].
  - pose proof (computeWindow_default_results n center_ts duration) as H.
    destruct (computeWindow n center_ts duration DEFAULT_FPS DEFAULT_EXTRA_PRE
                DEFAULT_EXTRA_POST); [exact H | tauto].
  - destruct He as [[-> ->] | [msg ->]]; eauto.
Qed.

Lemma session_trace_refl (s : session) : session_trace json_dumps duration s s.
Proof. repeat split; reflexivity. Qed.

Lemma session_trace_trans (s1 s2 s3 : session) :
  session_trace json_dumps duration s1 s2 -> session_trace json_dumps duration s2 s3 ->
  session_trace json_dumps duration s1 s3.
Proof.
  intros (Hd & Ht & Hp) (Hd' & Ht' & Hp'). repeat split; etrans; eauto.
Qed.

(** A state that differs by lines read and lines printed only. *)
Lemma session_trace_read (s : session) (inputs : list string) (w : world) :
  inputs `suffix_of` pending s ->
  session_trace json_dumps duration s (Session (table s) inputs (output s) w).
Proof. intros H. repeat split; [reflexivity | reflexivity | exact H]. Qed.

Lemma suffix_length_lt (line : string) (inputs rest : list string) :
  inputs `suffix_of` rest -> (length inputs < length (line :: rest))%nat.
Proof. intros H%suffix_length. simpl. lia. Qed.

(** The loop over the timestamps ends, within one iteration per line, in
    one of the three ways. *)
Lemma timestamp_loop_runs (fuel : nat) :
  forall (character move : string) (s : session),
    (length (pending s) < fuel)%nat ->
    exists r character' s',
      timestamp_loop json_dumps fuel duration character move s = Some (r, character', s')
      /\ session_trace json_dumps duration s s'
      /\ session_end r s'.
Proof.
  induction fuel as [|fuel IH]; intros character move s Hfuel; [lia|].
  cbn [timestamp_loop]. unfold input.
  destruct (pending s) as [|line rest] eqn:Hpending.
  { eexists _, _, _. split; [reflexivity|]. split.
    - apply session_trace_read. now rewrite Hpending.
    - right. left. now split. }
  assert (Hrest : rest `suffix_of` pending s) by (rewrite Hpending; apply suffix_cons_r; reflexivity).
  assert (Hlen : (length rest < fuel)%nat) by (simpl in Hfuel; lia).
  assert (Hnext : forall character move w,
            exists r character' s',
              timestamp_loop json_dumps fuel duration character move
                (Session (table s) rest (output s) w) = Some (r, character', s')
              /\ session_trace json_dumps duration s s' /\ session_end r s').
  { intros c m w. destruct (IH c m (Session (table s) rest (output s) w) Hlen)
      as (r & c' & s' & E & Htr & Hend).
    exists r, c', s'. split; [exact E|]. split; [|exact Hend].
    eapply session_trace_trans; [|exact Htr]. now apply session_trace_read. }
  destruct (Str.is_empty (Str.strip line)).
  { eexists _, _, _. split; [reflexivity|]. split.
    - now apply session_trace_read.
    - now left. }
  destruct (parse_time_to_seconds (Str.strip line)) as [center|e] eqn:Eparse.
  2:{ apply parse_time_to_seconds_raises in Eparse as [[msg ->] | [msg ->]].
      - apply Hnext.
      - eexists _, _, _. split; [reflexivity|]. split.
        + now apply session_trace_read.
        + right. right. eauto. }
  destruct (PyFloat.ge center duration); [apply Hnext|].
  set (character1 := match_character_name character (table s)).
  set (move1 := match_move_name character1 move (table s)).
  set (w1 := print TIMESTAMP_PROMPT (screen s)).
  pose proof (get_clip_range_results character1 move1 center (table s) rest w1)
    as (Hstep & Hsuffix & Hres).
  destruct (get_clip_range json_dumps character1 move1 center duration (table s)
              (Some FRAME_DATA_PATH) None None None rest w1) as [[[r fd] ins] w'].
  unfold returned, table_after, inputs_after in *. cbn [fst snd] in *.
  assert (Htrace : forall d w,
            rtc (clip_step duration) (output s) d ->
            session_trace json_dumps duration s (Session fd ins d w)).
  { intros d w Hd. split; [exact Hd|]. split; [now apply rtc_once|].
    cbn [pending]. etrans; [exact Hsuffix | exact Hrest]. }
  assert (Hins : (length ins < fuel)%nat).
  { apply suffix_length in Hsuffix. lia. }
  assert (Hnext' : forall d w,
            rtc (clip_step duration) (output s) d ->
            exists r character' s',
              timestamp_loop json_dumps fuel duration character1 move1 (Session fd ins d w)
              = Some (r, character', s')
              /\ session_trace json_dumps duration s s' /\ session_end r s').
  { intros d w Hd. destruct (IH character1 move1 (Session fd ins d w) Hins)
      as (r' & c' & s' & E & Htr & Hend).
    exists r', c', s'. split; [exact E|]. split; [|exact Hend].
    eapply session_trace_trans; [|exact Htr]. now apply Htrace. }
  destruct r as [[start_time end_time]|e].
  - pose proof (clip_saved duration character1 move1 start_time end_time (output s) w' Hres)
      as Hclip.
    destruct (save_move_clip_effect character1 move1 start_time end_time (output s) w')
      as (idx & _ & _ & _ & _ & _ & Hsave).
    rewrite Hsave in Hclip |- *. cbn [fst snd] in Hclip.
    apply Hnext'. now apply rtc_once.
  - destruct Hres as [[msg ->] | [[msg ->] | [-> Hnil]]].
    + now apply Hnext'.
    + eexists _, _, _. split; [reflexivity|]. split; [now apply Htrace|].
      right. right. eauto.
    + eexists _, _, _. split; [reflexivity|]. split; [now apply Htrace|].
      right. left. now split.
Qed.

Lemma ask_character_results (inputs : list string) :
  forall w : world,
    let out := ask_character inputs w in
    out.1.2 `suffix_of` inputs
    /\ match out.1.1 with
       | Ok character => Str.is_empty character = false
       | Raise e => e = EOFError /\ out.1.2 = []
       end.
Proof.
  induction inputs as [|line rest IH]; intros w; simpl.
  - now split.
  - destruct (Str.is_empty (Str.strip line)) eqn:E.
    + destruct (IH (print "Character name is required." (print "Character: " w)))
        as [Hs Hr].
      split; [now apply suffix_cons_r | exact Hr].
    + simpl. split; [apply suffix_cons_r; reflexivity | exact E].
Qed.

(** The loop over the moves ends, within one iteration per line, in one of
    the three ways, and without an exception only after [done]. *)
Lemma move_loop_runs (fuel : nat) :
  forall (character : string) (s : session),
    (length (pending s) < fuel)%nat ->
    exists r s',
      move_loop json_dumps fuel duration character s = Some (r, s')
      /\ session_trace json_dumps duration s s'
      /\ session_end r s'
      /\ (r = None -> last (stdout (screen s')) = Some "Exiting move extractor.").
Proof.
  induction fuel as [|fuel IH]; intros character s Hfuel; [lia|].
  cbn [move_loop]. unfold input.
  destruct (pending s) as [|line rest] eqn:Hpending.
  { eexists _, _. split; [reflexivity|]. split; [|split].
    - apply session_trace_read. now rewrite Hpending.
    - right. left. now split.
    - discriminate. }
  assert (Hrest : rest `suffix_of` pending s) by (rewrite Hpending; apply suffix_cons_r; reflexivity).
  assert (Hlen : (length rest < fuel)%nat) by (simpl in Hfuel; lia).
  assert (Hnext : forall character s1,
            session_trace json_dumps duration s s1 ->
            (length (pending s1) < fuel)%nat ->
            exists r s',
              move_loop json_dumps fuel duration character s1 = Some (r, s')
              /\ session_trace json_dumps duration s s' /\ session_end r s'
              /\ (r = None -> last (stdout (screen s')) = Some "Exiting move extractor.")).
  { intros c s1 Htr1 Hlen1. destruct (IH c s1 Hlen1) as (r & s' & E & Htr & Hend & Hdone).
    exists r, s'. split; [exact E|]. split; [|split; assumption].
    eapply session_trace_trans; eassumption. }
  destruct (Str.is_empty (Str.strip line)).
  { apply Hnext; [now apply session_trace_read | exact Hlen]. }
  destruct (String.eqb (Str.map Str.lower (Str.strip line)) "done").
  { eexists _, _. split; [reflexivity|]. split; [|split].
    - now apply session_trace_read.
    - now left.
    - intros _. unfold print. cbn [screen stdout]. apply last_snoc. }
  destruct (String.eqb (Str.map Str.lower (Str.strip line)) "changechar").
  { pose proof (ask_character_results rest
                  (print ("Move for " +:+ character +:+ ": ") (screen s))) as [Hs Hr].
    cbv zeta in Hs, Hr.
    destruct (ask_character rest (print ("Move for " +:+ character +:+ ": ") (screen s)))
      as [[[c|e] ins] w']; cbn [fst snd] in Hs, Hr.
    - apply Hnext.
      + apply session_trace_read. etrans; eassumption.
      + apply suffix_length in Hs. cbn [pending]. lia.
    - destruct Hr as [-> ->]. eexists _, _. split; [reflexivity|]. split; [|split].
      + apply session_trace_read. etrans; eassumption.
      + right. left. now split.
      + discriminate. }
  set (move1 := match_move_name character (Str.strip line) (table s)).
  set (s1 := Session (table s) rest (output s) _).
  destruct (timestamp_loop_runs fuel character move1 s1 Hlen)
    as (r & c' & s2 & -> & Htr & Hend).
  assert (Htr1 : session_trace json_dumps duration s s2).
  { eapply session_trace_trans; [|exact Htr]. now apply session_trace_read. }
  destruct r as [e|].
  - eexists _, _. split; [reflexivity|]. split; [exact Htr1|]. split; [exact Hend|].
    discriminate.
  - apply Hnext; [exact Htr1|].
    destruct Htr as (_ & _ & Hs%suffix_length). unfold s1 in Hs. cbn [pending] in Hs. lia.
Qed.

(** The session as a whole. *)
Lemma move_extractor_session_runs (frame_data : frame_table) (inputs : list string)
    (d : disk) (w : world) :
  exists r s',
    move_extractor_session json_dumps duration frame_data inputs d w = Some (r, s')
    /\ session_trace json_dumps duration (Session frame_data inputs d w) s'
    /\ session_end r s'
    /\ (r = None -> last (stdout (screen s')) = Some "Exiting move extractor.").
Proof.
  unfold move_extractor_session.
  pose proof (ask_character_results inputs
                (print ("Loaded video (" +:+ format_2f duration +:+ "s).") w)) as [Hs Hr].
  cbv zeta in Hs, Hr.
  destruct (ask_character inputs (print ("Loaded video (" +:+ format_2f duration +:+ "s).") w))
    as [[[c|e] ins] w']; cbn [fst snd] in Hs, Hr.
  - set (s1 := Session frame_data ins d _).
    destruct (move_loop_runs (S (length ins)) (match_character_name c frame_data) s1)
      as (r & s' & E & Htr & Hend & Hdone); [cbn [s1 pending]; lia|].
    exists r, s'. split; [exact E|]. split; [|split; assumption].
    eapply session_trace_trans; [|exact Htr].
    now apply (session_trace_read (Session frame_data inputs d w)).
  - destruct Hr as [-> ->]. eexists _, _. split; [reflexivity|]. split; [|split].
    + now apply (session_trace_read (Session frame_data inputs d w)).
    + right. left. now split.
    + discriminate.
Qed.

End SessionFacts.

(** ** What a session leaves behind *)

Lemma append_slash_inj (a a' b b' : string) :
  a +:+ "/" +:+ b = a' +:+ "/" +:+ b' ->
  Str.count "/" b = 0%nat -> Str.count "/" b' = 0%nat ->
  a = a' /\ b = b'.
Proof.
  intros Heq Hb Hb'.
  change ("/" +:+ b) with (String "/" b) in Heq.
  change ("/" +:+ b') with (String "/" b') in Heq.
  pose proof (split_last_slash_name a b Hb) as H.
  rewrite Heq, (split_last_slash_name a' b' Hb') in H.
  injection H as Ha ->. split; [|reflexivity].
  clear -Ha. revert a' Ha. induction a as [|c a IH]; intros [|c' a']; simpl; intros H.
  - reflexivity.
  - injection H as _ H. now destruct a'.
  - injection H as _ H. now destruct a.
  - injection H as -> H. f_equal. now apply IH.
Qed.

Section Added.
Variable duration : float.
Hypothesis duration_is_a_number : PyFloat.is_nan duration = false.

(** The disk after [save_move_clip], against the disk before. *)
Lemma save_move_clip_on_disk (character move : string) (start_time end_time : float)
    (d : disk) (w : world) :
  let d' := (save_move_clip character move start_time end_time d w).1.2 in
  exists path,
    written d' = written d ++ [(path, Float start_time, Float end_time)]
    /\ on_disk d' path /\ ~ on_disk d path
    /\ (forall path', on_disk d path' -> on_disk d' path').
Proof.
  destruct (save_move_clip_effect character move start_time end_time d w)
    as (r & _ & _ & _ & Hcount & Hfresh & Hsave).
  set (move_dir := os_path_join (os_path_join OUTPUT_DIR (sanitize_label character))
                     (sanitize_label move)) in *.
  set (filename := clip_filename character move (r + 1)) in *.
  rewrite Hsave. cbn [fst snd].
  exists (move_dir +:+ "/" +:+ filename). cbn [written].
  split; [reflexivity|]. split; [|split].
  - exists move_dir, filename, (default [] (listing d !! move_dir) ++ [filename]).
    split; [reflexivity|]. split; [exact Hcount|]. cbn [listing].
    split; [apply lookup_insert_eq|]. apply elem_of_app. right. apply list_elem_of_here.
  - intros (dir & name & entries & Hpath & Hname & Hdir & Hin).
    apply append_slash_inj in Hpath as [<- <-]; try assumption.
    apply Hfresh. now rewrite Hdir.
  - intros path' (dir & name & entries & Hpath & Hname & Hdir & Hin).
    destruct (decide (dir = move_dir)) as [-> | Hne].
    + exists move_dir, name, (entries ++ [filename]).
      split; [exact Hpath|]. split; [exact Hname|]. cbn [listing]. rewrite Hdir. simpl.
      split; [apply lookup_insert_eq|]. apply elem_of_app. now left.
    + exists dir, name, entries. split; [exact Hpath|]. split; [exact Hname|].
      cbn [listing]. split; [|exact Hin]. now rewrite lookup_insert_ne.
Qed.

Lemma clips_added_refl (d : disk) : clips_added duration d d [].
Proof.
  split; [now rewrite app_nil_r|]. split; [constructor|]. split; [constructor|].
  split; [|auto]. intros path Hin. now apply not_elem_of_nil in Hin.
Qed.

Lemma clips_added_step (d0 d d' : disk) (new : list (string * number * number)) :
  clips_added duration d0 d new -> clip_step duration d d' ->
  exists new', clips_added duration d0 d' new'.
Proof.
  intros (Hw & Hin & Hnd & Hnew & Hold) Hstep.
  destruct Hstep as [character move start_time end_time d w Hinside].
  destruct (save_move_clip_on_disk character move start_time end_time d w)
    as (path & Hw' & Hon & Hoff & Hgrow).
  cbv zeta in Hw', Hon, Hgrow.
  exists (new ++ [(path, Float start_time, Float end_time)]).
  split; [now rewrite Hw', Hw, <- List.app_assoc|].
  split; [apply Forall_app; split; [exact Hin | constructor; [exact (Hinside duration_is_a_number) | constructor]]|].
  rewrite !fmap_app. cbn [fmap list_fmap fst].
  split; [|split].
  - apply NoDup_app. split; [exact Hnd|]. split; [|apply NoDup_singleton].
    intros path' Hin' ->%list_elem_of_singleton. now destruct (Hnew path Hin').
  - intros path' [Hin' | ->%list_elem_of_singleton]%elem_of_app.
    + destruct (Hnew path' Hin') as [H1 H2]. split; [now apply Hgrow | exact H2].
    + split; [exact Hon|]. intros H0. now apply Hoff, Hold.
  - intros path' H0. now apply Hgrow, Hold.
Qed.

Lemma clips_added_rtc (d0 d : disk) :
  rtc (clip_step duration) d0 d -> exists new, clips_added duration d0 d new.
Proof.
  intros H. revert d H. apply (rtc_ind_r (fun d => exists new, clips_added duration d0 d new)).
  - exists []. apply clips_added_refl.
  - intros d d' _ Hstep [new IH]. now apply (clips_added_step d0 d d' new).
Qed.

End Added.

Section Tables.
Variable json_dumps : bool -> json -> string.

Lemma table_steps_keep (t t' : frame_table) :
  rtc (table_step json_dumps) t t' ->
  (table_ok t -> table_ok t')
  /\ (forall character move k,
        count_of character move t = Some k -> count_of character move t' = Some k).
Proof.
  induction 1 as [t|t t1 t' (c & m & path & inputs & w & ->) _ [IHok IHcount]].
  - split; auto.
  - split.
    + intros Hok. now apply IHok, ensure_move_frames_table_ok.
    + intros character move k Hk. now apply IHcount, ensure_move_frames_count_kept.
Qed.

End Tables.

Section SessionTheorems.
Variable json_dumps : bool -> json -> string.
Variable duration : float.


(** X18. Every clip a session writes holds a window inside the video,
    [0 <= start < end <= duration], under a path of its own: no two clips of
    the session share a path, and none takes the path of an entry that was
    on the disk before. The disk is otherwise as it was: the clips are
    added to those written, and every entry is still there. *)
Theorem move_extractor_session_clips (frame_data : frame_table) (inputs : list string)
    (d : disk) (w : world) :
  PyFloat.is_nan duration = false ->
  exists r s' new,
    move_extractor_session json_dumps duration frame_data inputs d w = Some (r, s')
    /\ clips_added duration d (output s') new.
Proof.
  intros Hd.
  destruct (move_extractor_session_runs json_dumps duration frame_data inputs d w)
    as (r & s' & E & (Hclips & _) & _).
  destruct (clips_added_rtc duration Hd d (output s') Hclips) as [new Hnew].
  now exists r, s', new.
Qed.

(** X19. A session never loses what the table holds: every count stored
    before it is stored after it under the same keys, and a table in which
    no two keys of a level share a normal form is still such a table,
    however the session ends. *)
Theorem move_extractor_session_table (frame_data : frame_table) (inputs : list string)
    (d : disk) (w : world) :
  table_ok frame_data ->
  exists r s',
    move_extractor_session json_dumps duration frame_data inputs d w = Some (r, s')
    /\ table_ok (table s')
    /\ forall character move k,
         count_of character move frame_data = Some k ->
         count_of character move (table s') = Some k.
Proof.
  intros Hok.
  destruct (move_extractor_session_runs json_dumps duration frame_data inputs d w)
    as (r & s' & E & (_ & Htable & _) & _).
  destruct (table_steps_keep json_dumps frame_data (table s') Htable) as [Hkeep Hcount].
  exists r, s'. split; [exact E|]. split; [now apply Hkeep | exact Hcount].
Qed.

End SessionTheorems.

Lemma move_extractor_session_clips_witness :
  exists r s' new,
    move_extractor_session (fun _ _ => EmptyString) hundred sample_table
      ["ryu"; "hadouken"; "10"; "1:00"; "200"; "done"] (Disk sample_dirs []) (World ∅ [])
    = Some (r, s')
    /\ clips_added hundred (Disk sample_dirs []) (output s') new.
Proof.
  exact (move_extractor_session_clips (fun _ _ => EmptyString) hundred sample_table
           ["ryu"; "hadouken"; "10"; "1:00"; "200"; "done"] (Disk sample_dirs [])
           (World ∅ []) eq_refl).
Defined.

Lemma move_extractor_session_table_witness :
  exists r s',
    move_extractor_session (fun _ _ => EmptyString) hundred sample_table
      ["ryu"; "Shoryuken"; "10"; "48"; "done"] (Disk sample_dirs []) (World ∅ [])
    = Some (r, s')
    /\ count_of "Ryu" "Low Kick" (table s') = Some 22.
Proof.
  destruct (move_extractor_session_table (fun _ _ => EmptyString) hundred sample_table
              ["ryu"; "Shoryuken"; "10"; "48"; "done"] (Disk sample_dirs []) (World ∅ [])
              sample_table_ok) as (r & s' & E & _ & Hcount).
  exists r, s'. split; [exact E|]. now apply Hcount.
Defined.

(** ** A frame count beyond the floats *)

Section HugeCount.
Variable json_dumps : bool -> json -> string.


End HugeCount.

